(** * create_pdf: the batch job of [handle_create_pdf.py]

    A shallow embedding of the module [src/handle_create_pdf.py]: the classes
    [AeonClient] and [PdfCreator], the parts of [pathlib], [str] and the
    interpreter they rely on, and the external services (the tracking
    service's HTTP API, Textract, S3) as oracles.  Statements about the
    module follow the definitions. *)

From Stdlib Require Import Ascii String.
From stdpp Require Import gmap strings list sorting.

Open Scope string_scope.
Open Scope list_scope.

(** ** Python strings

    A [str] is modelled as a [string]; comparison runs over the characters'
    codes, as Python's does over code points. *)

Module Str.

(** Comparison of sequences as Python defines it for [str], [list] and
    [tuple]: the first position where the two differ decides, and a proper
    prefix is smaller. *)
Fixpoint lex_compare {A} (cmp : A → A → comparison) (l1 l2 : list A)
  : comparison :=
  match l1, l2 with
  | [], [] => Eq
  | [], _ :: _ => Lt
  | _ :: _, [] => Gt
  | x :: l1', y :: l2' =>
      match cmp x y with
      | Eq => lex_compare cmp l1' l2'
      | c => c
      end
  end.

Definition compare (s t : string) : comparison :=
  lex_compare Ascii.compare (list_ascii_of_string s) (list_ascii_of_string t).

(** [s < t] on [str]. *)
Definition ltb (s t : string) : bool :=
  match compare s t with Lt => true | _ => false end.

(** [c.lower()] for one character of the ASCII range. *)
Definition lower_ascii (c : ascii) : ascii :=
  let n := N_of_ascii c in
  if ((65 <=? n) && (n <=? 90))%N then ascii_of_N (n + 32) else c.

(** [s.lower()], for [s] in the ASCII range. *)
Fixpoint lower (s : string) : string :=
  match s with
  | EmptyString => EmptyString
  | String c s' => String (lower_ascii c) (lower s')
  end.

(** Whether [s] is made of characters of the ASCII range, on which [lower]
    is what [str.lower] is. *)
Definition is_ascii (s : string) : bool :=
  forallb (λ c, (N_of_ascii c <? 128)%N) (list_ascii_of_string s).

(** [s.lstrip(chars)] for a one-character [chars]. *)
Fixpoint lstrip (c : ascii) (s : string) : string :=
  match s with
  | String d s' => if Ascii.eqb c d then lstrip c s' else s
  | EmptyString => EmptyString
  end.

(** [s.rstrip(chars)] for a one-character [chars]. *)
Fixpoint rstrip (c : ascii) (s : string) : string :=
  match s with
  | EmptyString => EmptyString
  | String d s' =>
      match rstrip c s' with
      | EmptyString => if Ascii.eqb c d then EmptyString else String d EmptyString
      | r => String d r
      end
  end.

(** [sep.join(parts)] *)
Fixpoint join (sep : string) (parts : list string) : string :=
  match parts with
  | [] => ""
  | [s] => s
  | s :: rest => s +:+ sep +:+ join sep rest
  end.

(** [fnmatch.fnmatchcase(name, pat)] for patterns made of literal
    characters, [?] and [*]. Bracket expressions, which the one pattern of
    the module (["*.tiff"]) does not use, are not interpreted. *)
Fixpoint fnmatch_chars (pat name : list ascii) : bool :=
  match pat with
  | [] => match name with [] => true | _ => false end
  | p :: pat' =>
      if Ascii.eqb p "*" then
        (fix star (name : list ascii) : bool :=
           fnmatch_chars pat' name
           || match name with [] => false | _ :: name' => star name' end) name
      else
        match name with
        | [] => false
        | c :: name' =>
            (Ascii.eqb p "?" || Ascii.eqb p c) && fnmatch_chars pat' name'
        end
  end.

Definition fnmatch (name pat : string) : bool :=
  fnmatch_chars (list_ascii_of_string pat) (list_ascii_of_string name).

End Str.

(** ** pathlib

    A [Path] is the list of its components ([Path.parts]); the file system is
    a finite map from paths to what is found there. *)

Module PathLib.

Definition Path := list string.


(** [p / name], a single component being appended. *)
Definition div (p : Path) (name : string) : Path := p ++ [name].

(** [p.name] *)
Definition name (p : Path) : string := List.last p "".

(** [p.parent] *)
Definition parent (p : Path) : Path := List.removelast p.

(** [p < q]: pathlib compares the parts, as lists of [str]. *)
Definition compare (p q : Path) : comparison := Str.lex_compare Str.compare p q.

Definition ltb (p q : Path) : bool :=
  match compare p q with Lt => true | _ => false end.

(** The order [sorted] uses: [p] may stay before [q] unless [q < p]. *)
Definition le (p q : Path) : Prop := ltb q p = false.

#[export] Instance le_dec : RelDecision le.
Proof. intros p q. unfold le. apply _. Defined.

(** What a document holds: the pages with their recognised text. *)
Definition Text := string.

Inductive content :=
| Blank                                   (* a file nothing is read from *)
| Pdf (pages : list (Path * Text)).       (* an assembled document *)

Inductive node :=
| Dir
| File (c : content).

#[export] Instance content_eq_dec : EqDecision content.
Proof. solve_decision. Defined.
#[export] Instance node_eq_dec : EqDecision node.
Proof. solve_decision. Defined.

Abbreviation FS := (gmap Path node).

Inductive os_error :=
| FileExistsError
| FileNotFoundError
| NotADirectoryError
| IsADirectoryError.

(** [p.is_dir()] *)
Definition is_dir (fs : FS) (p : Path) : bool :=
  match fs !! p with Some Dir => true | _ => false end.

(** The paths above [p], from the origin down to its parent. *)
Definition ancestors (p : Path) : list Path :=
  map (λ i, take i p) (seq 0 (length p)).

(** The error of reaching for [p] when [p] is not there: the system walks
    the path, and a regular file on the way is [ENOTDIR], a missing
    directory [ENOENT]. *)
Definition no_entry (fs : FS) (p : Path) : os_error :=
  if existsb (λ q, match fs !! q with Some (File _) => true | _ => false end)
             (ancestors p)
  then NotADirectoryError else FileNotFoundError.

(** [os.open(p, O_CREAT | O_WRONLY [| O_EXCL])] on a path that is absent. *)
Definition create_file (fs : FS) (p : Path) : os_error + FS :=
  match fs !! parent p with
  | Some Dir => inr (<[p := File Blank]> fs)
  | Some (File _) => inl NotADirectoryError
  | None => inl (no_entry fs p)
  end.

(** [p.touch(exist_ok=...)]: with [exist_ok] an existing path only has its
    times updated; without it the creation is exclusive. *)
Definition touch (exist_ok : bool) (fs : FS) (p : Path) : os_error + FS :=
  match fs !! p with
  | Some _ => if exist_ok then inr fs else inl FileExistsError
  | None => create_file fs p
  end.

(** [p.unlink()] *)
Definition unlink (fs : FS) (p : Path) : os_error + FS :=
  match fs !! p with
  | Some (File _) => inr (delete p fs)
  | Some Dir => inl IsADirectoryError
  | None => inl (no_entry fs p)
  end.

(** [p.mkdir(exist_ok=...)], [parents] being left at its default [False]. *)
Definition mkdir (exist_ok : bool) (fs : FS) (p : Path) : os_error + FS :=
  match fs !! p with
  | Some Dir => if exist_ok then inr fs else inl FileExistsError
  | Some (File _) => inl FileExistsError
  | None =>
      match fs !! parent p with
      | Some Dir => inr (<[p := Dir]> fs)
      | Some (File _) => inl NotADirectoryError
      | None => inl (no_entry fs p)
      end
  end.

(** The name under which [p] is an entry of the directory [d], if it is one. *)
Fixpoint entry_name (d p : Path) : option string :=
  match d, p with
  | [], [n] => Some n
  | x :: d', y :: p' => if decide (x = y) then entry_name d' p' else None
  | _, _ => None
  end.

(** Whether [p] is an entry of [d] whose name matches [pattern]. *)
Definition entry_matches (d : Path) (pattern : string) (p : Path) : bool :=
  match entry_name d p with
  | Some n => Str.fnmatch n pattern
  | None => false
  end.

(** [d.glob(pattern)] for a pattern without a separator: the entries of [d]
    whose names match, in the order the system lists them; nothing when [d]
    is not a directory. *)
Definition glob (fs : FS) (d : Path) (pattern : string) : list Path :=
  if is_dir fs d then
    filter (λ p, entry_matches d pattern p) (map fst (map_to_list fs))
  else [].

(** [sorted(paths)] *)
Definition sorted (l : list Path) : list Path := merge_sort le l.

(** Defaults of the keyword arguments the module leaves out. *)
Definition touch_exist_ok_default : bool := true.

Declare Scope path_scope.
Delimit Scope path_scope with path.
Infix "/" := div : path_scope.

End PathLib.

Import PathLib.

(** ** Exceptions, the world and the monad of effects *)

(** The exceptions that can reach the handlers of the module; all of them
    derive from [Exception]. *)
Inductive exn :=
| AlreadyProcessingError
| OSError (e : os_error)
| NameError (name : string)
| AttributeError (cls attr : string)
| TypeError (msg : string)
| KeyError (key : string)
| ServiceError (msg : string).   (* raised inside requests, boto3 or textractor *)

Inductive outcome (A : Type) :=
| Returns (a : A)
| Raises (e : exn).
Arguments Returns {A} a.
Arguments Raises {A} e.

(** What [logging.error] is given: a formatted message or an exception. *)
Inductive log_arg :=
| LogStr (msg : string)
| LogExn (e : exn).

(** The calls a run makes, in the order it makes them: the steps of the
    pipeline as they are entered, the requests to the external services and
    the log records. *)
Inductive event :=
| Call_set_transaction_processing (transaction_number : string)
| Call_create_pdf (transaction_number : string)
| Call_optimize_pdf (pdf_path : Path)
| Call_update_transaction_status (transaction_number : string)
| Call_set_transaction_finished (transaction_number : string)
| Session_get (url : string)
| Textract_detect_document_text (file_source : Path)
| S3_upload_file (filename : Text) (bucket key : string)
| Logging_error (arg : log_arg).

#[export] Instance os_error_eq_dec : EqDecision os_error.
Proof. solve_decision. Defined.
#[export] Instance exn_eq_dec : EqDecision exn.
Proof. solve_decision. Defined.
#[export] Instance log_arg_eq_dec : EqDecision log_arg.
Proof. solve_decision. Defined.
#[export] Instance event_eq_dec : EqDecision event.
Proof. solve_decision. Defined.

Record World := {
  fs : FS;               (* the file system *)
  calls : list event;    (* the calls made so far, oldest first *)
}.

Definition M (A : Type) : Type := World → outcome A * World.

#[export] Instance M_ret : MRet M := λ A a w, (Returns a, w).

#[export] Instance M_bind : MBind M := λ A B f m w,
  match m w with
  | (Returns a, w') => f a w'
  | (Raises e, w') => (Raises e, w')
  end.

(** [raise e] *)
Definition raise {A} (e : exn) : M A := λ w, (Raises e, w).

(** [try: body / except ...: handler], the handler re-raising what its
    clauses do not name. *)
Definition try_except {A} (body : M A) (handler : exn → M A) : M A := λ w,
  match body w with
  | (Returns a, w') => (Returns a, w')
  | (Raises e, w') => handler e w'
  end.

(** [for x in l: body] *)
Fixpoint for_each {A} (l : list A) (body : A → M unit) : M unit :=
  match l with
  | [] => mret tt
  | x :: l' => body x;; for_each l' body
  end.

Definition emit (ev : event) : M unit := λ w,
  (Returns tt, {| fs := fs w; calls := calls w ++ [ev] |}).

(** A pathlib operation on the file system, its error raised as [OSError]. *)
Definition os_call (op : FS → Path → os_error + FS) (p : Path) : M unit := λ w,
  match op (fs w) p with
  | inr fs' => (Returns tt, {| fs := fs'; calls := calls w |})
  | inl e => (Raises (OSError e), w)
  end.

(** A request to an external service: recorded, then answered by the service
    from the world as it is when the request is made. *)
Definition external {A} (ev : event) (service : World → outcome A) : M A := λ w,
  (service w, {| fs := fs w; calls := calls w ++ [ev] |}).

(** The file system as the running method finds it. *)
Definition read_fs : M FS := λ w, (Returns (fs w), w).

(** A call that returns or raises without touching the world. *)
Definition finish {A} (o : outcome A) : M A := λ w, (o, w).

(** [logging.error(arg)] *)
Definition logging_error (arg : log_arg) : M unit := emit (Logging_error arg).

(** ** The module [handle_create_pdf] *)

(** The environment variables the module reads with [getenv], each read
    where the source reads it; the two directories are held as paths. *)
Record Config := {
  SOURCE_TRANSACTION_STATUS : string;
  DESTINATION_TRANSACTION_STATUS : string;
  ROOT_DIR : Path;
  IN_PROCESSING_FILE_DIR : Path;
  OCR_BUCKET : string;
}.

(** A record of the tracking service: a [dict], its items in insertion
    order. The values are taken to be [str]; a record whose transaction
    number is a JSON number, for which line 58 raises [TypeError], is not of
    this type. *)
Definition Transaction := list (string * string).

(** [requests.Response], as far as the module looks into it. *)
Record Response := {
  json : outcome (list Transaction);   (* what [.json()] returns or raises *)
}.

Record Session := {
  headers : list (string * string);
}.

(** The external collaborators. *)
Record Services := {
  requests_get : World → Session → string → outcome Response;
  textract_detect_document_text : World → Path → outcome Text;
  s3_upload_file : World → Text → string → string → outcome unit;
}.

(** *** Name resolution *)

(** The names bound in the module's namespace once its body has run: the
    imports (lines 3-9), [logger] (line 11) and the classes (lines 15-32). *)
Definition module_globals : list string :=
  ["logging"; "getenv"; "Path"; "Session"; "boto3"; "Textractor"; "logger";
   "AlreadyProcessingError"; "AeonClient"; "PdfCreator"].

(** The builtins the module refers to. *)
Definition builtins : list string :=
  ["Exception"; "FileExistsError"; "object"; "sorted"; "list"; "__name__"].

(** Loading a global name: the module's namespace, then the builtins. *)
Definition load_global (name : string) : M unit :=
  if decide (name ∈ module_globals ++ builtins) then mret tt
  else raise (NameError name).

(** *** class AeonClient *)

Record AeonClient := {
  session : Session;
  baseurl : string;
}.

(** [AeonClient(...)] with the positional arguments [args]:
    [__init__(self, baseurl, access_key)] takes exactly two after [self]. *)
Definition AeonClient_init (args : list string) : M AeonClient :=
  match args with
  | [baseurl; access_key] =>
      mret {| session := {| headers := [("Accept", "application/json");
                                        ("User-Agent", "AeonClient/0.1");
                                        ("X-AEON-API-KEY", access_key)] |};
              baseurl := baseurl |}
  | _ => raise (TypeError "AeonClient.__init__() takes 2 positional arguments")
  end.

(** What an attribute of an [AeonClient] instance evaluates to: the two
    fields set by [__init__] and the one method besides it. *)
Inductive AeonClient_attr :=
| Field_session
| Field_baseurl
| Method_get.

(** [client.<name>] *)
Definition AeonClient_getattr (name : string) : M AeonClient_attr :=
  if decide (name = "session") then mret Field_session
  else if decide (name = "baseurl") then mret Field_baseurl
  else if decide (name = "get") then mret Method_get
  else raise (AttributeError "AeonClient" name).

Section HandleCreatePdf.

Context (env : Config) (svc : Services).

Local Open Scope path_scope.

(** [AeonClient.get] (lines 28-30) *)
Definition AeonClient_get (self : AeonClient) (url : string) : M Response :=
  let full_url := Str.join "/" [Str.rstrip "/" (baseurl self); Str.lstrip "/" url] in
  external (Session_get full_url)
           (λ w, requests_get svc w (session self) full_url).

(** [attribute(url)] or, with a body, [attribute(url, json=body)]. *)
Definition AeonClient_call (self : AeonClient) (attribute : AeonClient_attr)
    (url : string) (json_kw : option (list (string * string))) : M Response :=
  match attribute with
  | Method_get =>
      match json_kw with
      | None => AeonClient_get self url
      | Some _ => raise (TypeError "get() got an unexpected keyword argument 'json'")
      end
  | Field_session => raise (TypeError "'Session' object is not callable")
  | Field_baseurl => raise (TypeError "'str' object is not callable")
  end.

(** *** class PdfCreator *)

Inductive S3Client := boto3_client (service_name : string).
Inductive Textractor := Textractor_new.

Record PdfCreator := {
  aeon_client : AeonClient;
  s3_client : S3Client;
  extractor : Textractor;
}.

(** [PdfCreator.__init__] (lines 34-37) *)
Definition PdfCreator_init : M PdfCreator :=
  aeon_client ← AeonClient_init [];
  let s3_client := boto3_client "s3" in
  let extractor := Textractor_new in
  mret {| aeon_client := aeon_client; s3_client := s3_client;
          extractor := extractor |}.

(** The marker of a transaction: [Path(getenv('IN_PROCESSING_FILE_DIR'),
    transaction_number)], for a [transaction_number] that is one component
    ([is_component]). *)
Definition marker (transaction_number : string) : Path :=
  IN_PROCESSING_FILE_DIR env / transaction_number.

(** [set_transaction_processing] (lines 56-60) *)
Definition set_transaction_processing (transaction_number : string) : M unit :=
  emit (Call_set_transaction_processing transaction_number);;
  try_except
    (os_call (touch touch_exist_ok_default) (marker transaction_number))
    (λ e, match e with
          | OSError FileExistsError => raise AlreadyProcessingError
          | _ => raise e
          end).

(** [set_transaction_finished] (lines 62-63) *)
Definition set_transaction_finished (transaction_number : string) : M unit :=
  emit (Call_set_transaction_finished transaction_number);;
  os_call unlink (marker transaction_number).

(** [collect_tiff_filepaths] (lines 80-92), on the file system as it is
    when the method runs. *)
Definition collect_tiff_filepaths (fs : FS) (root_dir : Path) : list Path :=
  let master_edited_dir := root_dir / "master_edited" in
  let master_dir := root_dir / "master" in
  let file_list :=
    if is_dir fs master_edited_dir then glob fs master_edited_dir "*.tiff"
    else glob fs master_dir "*.tiff" in
  sorted file_list.

(** [extract_text] (lines 95-108) *)
Definition extract_text (self : PdfCreator) (page_path : Path) : M Text :=
  external (Textract_detect_document_text page_path)
           (λ w, textract_detect_document_text svc w page_path).

(** [upload_page_text] (lines 111-124) *)
Definition upload_page_text (self : PdfCreator) (page_text : Text)
    (object_key : string) : M unit :=
  external (S3_upload_file page_text (OCR_BUCKET env) object_key)
           (λ w, s3_upload_file svc w page_text (OCR_BUCKET env) object_key).

(** [optimize_pdf] (lines 126-132): [pass]. *)
Definition optimize_pdf (self : PdfCreator) (pdf_path : Path) : M unit :=
  emit (Call_optimize_pdf pdf_path).

(** Modelled from the spec: the document assembler of section 4.5, which
    [create_pdf] refers to as [PDFWriter] and the module neither defines nor
    imports. [begin(output_path)] starts an empty document, [append(page,
    text)] keeps the order of the calls, and [finalize] writes the one
    document holding every appended page with its text. *)
Record PDFWriter := {
  output_path : Path;
  appended : list (Path * Text);
}.

Definition PDFWriter_new (pdf_path : Path) : PDFWriter :=
  {| output_path := pdf_path; appended := [] |}.

Definition PDFWriter_append (writer : PDFWriter) (page : Path) (text : Text)
  : PDFWriter :=
  {| output_path := output_path writer;
     appended := appended writer ++ [(page, text)] |}.

Definition PDFWriter_write (writer : PDFWriter) : M unit := λ w,
  (Returns tt,
   {| fs := <[output_path writer := File (Pdf (appended writer))]> (fs w);
      calls := calls w |}).

(** The loop of [create_pdf] (lines 71-74); [writer] is the object the
    iterations append to. *)
Fixpoint create_pdf_pages (self : PdfCreator) (writer : PDFWriter)
    (source_files : list Path) : M PDFWriter :=
  match source_files with
  | [] => mret writer
  | page_path :: rest =>
      page_text ← extract_text self page_path;
      upload_page_text self page_text (name page_path);;
      create_pdf_pages self (PDFWriter_append writer page_path page_text) rest
  end.

(** [create_pdf] (lines 65-77), for a [transaction_number] that is one
    component ([is_component]): line 66 then appends it to the root and line
    67 the two names below it. *)
Definition create_pdf (self : PdfCreator) (transaction_number : string) : M Path :=
  emit (Call_create_pdf transaction_number);;
  let root_dir := ROOT_DIR env / transaction_number in
  let pdf_path := root_dir / "service_edited" / (transaction_number +:+ ".pdf") in
  os_call (mkdir true) (parent pdf_path);;
  load_global "PDFWriter";;
  let writer := PDFWriter_new pdf_path in
  source_files ← (fs ← read_fs; mret (collect_tiff_filepaths fs root_dir));
  writer ← create_pdf_pages self writer source_files;
  PDFWriter_write writer;;
  mret pdf_path.

(** [get_transactions_in_status] (lines 135-146) *)
Definition get_transactions_in_status (self : PdfCreator) (status_code : string)
  : M (list Transaction) :=
  let transaction_url :=
    "/odata/Requests?$filter=photoduplicationstatus eq " +:+ status_code in
  get ← AeonClient_getattr "get";
  response ← AeonClient_call (aeon_client self) get transaction_url None;
  finish (json response).

(** [update_transaction_status] (lines 150-158) *)
Definition update_transaction_status (self : PdfCreator)
    (transaction_number : string) : M unit :=
  emit (Call_update_transaction_status transaction_number);;
  let transaction_url := "/Requests/" +:+ transaction_number +:+ "/route" in
  post ← AeonClient_getattr "post";
  AeonClient_call (aeon_client self) post transaction_url
    (Some [("newStatus", DESTINATION_TRANSACTION_STATUS env)]);;
  mret tt.

(** [{k.lower(): v for k, v in transaction.items()}]: a later item replaces
    an earlier one under the same lowered key. *)
Definition lowercased (transaction : Transaction) : gmap string string :=
  foldl (λ d kv, <[Str.lower kv.1 := kv.2]> d) ∅ transaction.

(** The body of the loop of [handle_new_transactions] (lines 43-54). The
    local [transaction_number] is bound at line 45, before anything that
    raises [AlreadyProcessingError]. *)
Definition handle_transaction (self : PdfCreator) (transaction : Transaction)
  : M unit :=
  let lowercased := lowercased transaction in
  let bound := lowercased !! "transactionnumber" in
  try_except
    (transaction_number ←
       match bound with
       | Some v => mret v
       | None => raise (KeyError "transactionnumber")
       end;
     set_transaction_processing transaction_number;;
     pdf_path ← create_pdf self transaction_number;
     optimize_pdf self pdf_path;;
     update_transaction_status self transaction_number;;
     set_transaction_finished transaction_number)
    (λ e, match e with
          | AlreadyProcessingError =>
              logging_error
                (LogStr ("Transaction " +:+ default "" bound
                         +:+ " is already processing, skipping."))
          | e => logging_error (LogExn e)
          end).

(** [handle_new_transactions] (lines 39-54) *)
Definition handle_new_transactions (self : PdfCreator) : M unit :=
  transactions_to_process ←
    get_transactions_in_status self (SOURCE_TRANSACTION_STATUS env);
  for_each transactions_to_process (handle_transaction self).

(** The entry point (lines 161-162). *)
Definition main : M unit :=
  self ← PdfCreator_init;
  handle_new_transactions self.

End HandleCreatePdf.

(** ** Vocabulary of the statements *)

(** [n] ends with [suffix]. *)
Definition ends_with (suffix n : string) : Prop := ∃ stem, n = stem +:+ suffix.

(** [p] is an image of the directory [d]: an entry of [d] whose name has the
    extension [.tiff]. *)
Definition tiff_entry (fs : FS) (d p : Path) : Prop :=
  is_dir fs d = true ∧ is_Some (fs !! p) ∧
  ∃ n, p = div d n ∧ ends_with ".tiff" n.

(** Ascending by file name. *)
Definition by_filename (p q : Path) : Prop := Str.ltb (name p) (name q) = true.

(** [files] is the page sequence of [d]: its images, by ascending file name. *)
Definition pages_of (fs : FS) (d : Path) (files : list Path) : Prop :=
  (∀ p, p ∈ files ↔ tiff_entry fs d p) ∧ StronglySorted by_filename files.

(** The calls made between two worlds of one run. *)
Definition new_calls (w w' : World) : list event :=
  drop (length (calls w)) (calls w').

(** Every run of [m] leaves a world related by [R] to the one it started in. *)
Definition stays_within {A} (R : relation World) (m : M A) : Prop :=
  ∀ w, R w (m w).2.

(** From [w] to [w'] calls were only added to the log, each satisfying [P]. *)
Definition adds_calls (P : event → Prop) (w w' : World) : Prop :=
  ∃ evs, calls w' = calls w ++ evs ∧ Forall P evs.

(** From [w] to [w'] nothing was removed from the file system. *)
Definition keeps_paths (w w' : World) : Prop :=
  ∀ p, is_Some (fs w !! p) → is_Some (fs w' !! p).

(** A call of the steps that follow document assembly. *)
Definition after_assembly (ev : event) : Prop :=
  match ev with
  | Call_update_transaction_status _ | Call_set_transaction_finished _ => True
  | _ => False
  end.

(** A request for a page: its text extracted or published. *)
Definition page_request (ev : event) : Prop :=
  match ev with
  | Textract_detect_document_text _ | S3_upload_file _ _ _ => True
  | _ => False
  end.

Section Batch.

Context (env : Config) (svc : Services) (self : PdfCreator).

(** The world one record's processing leaves. *)
Definition run_record (transaction : Transaction) (w : World) : World :=
  (handle_transaction env svc self transaction w).2.

(** The world in which record [i] of the batch is taken up, the batch being
    started in [w]. *)
Definition world_before (batch : list Transaction) (w : World) (i : nat) : World :=
  foldl (λ w transaction, run_record transaction w) w (take i batch).

(** The calls made for record [i] of the batch. *)
Definition record_calls (batch : list Transaction) (w : World) (i : nat)
  : list event :=
  match batch !! i with
  | Some transaction =>
      new_calls (world_before batch w i)
                (run_record transaction (world_before batch w i))
  | None => []
  end.

End Batch.

(** ** A sample deployment *)

Definition sample_env : Config := {|
  SOURCE_TRANSACTION_STATUS := "22";
  DESTINATION_TRANSACTION_STATUS := "23";
  ROOT_DIR := ["srv"; "scans"];
  IN_PROCESSING_FILE_DIR := ["srv"; "processing"];
  OCR_BUCKET := "ocr-text";
|}.

(** [T100] has two pages under [master], [T200] has no directory at all,
    [T300] has a directory and no page, [T400] has an empty [master_edited]
    beside a [master] with a page, [T500] has pages in both. *)
Definition sample_fs : FS := list_to_map [
  (["srv"], Dir);
  (["srv"; "scans"], Dir);
  (["srv"; "processing"], Dir);
  (["srv"; "scans"; "T100"], Dir);
  (["srv"; "scans"; "T100"; "master"], Dir);
  (["srv"; "scans"; "T100"; "master"; "0002.tiff"], File Blank);
  (["srv"; "scans"; "T100"; "master"; "0001.tiff"], File Blank);
  (["srv"; "scans"; "T100"; "master"; "notes.txt"], File Blank);
  (["srv"; "scans"; "T300"], Dir);
  (["srv"; "scans"; "T400"], Dir);
  (["srv"; "scans"; "T400"; "master_edited"], Dir);
  (["srv"; "scans"; "T400"; "master_edited"; "readme.txt"], File Blank);
  (["srv"; "scans"; "T400"; "master"], Dir);
  (["srv"; "scans"; "T400"; "master"; "0001.tiff"], File Blank);
  (["srv"; "scans"; "T500"], Dir);
  (["srv"; "scans"; "T500"; "master_edited"], Dir);
  (["srv"; "scans"; "T500"; "master_edited"; "b.tiff"], File Blank);
  (["srv"; "scans"; "T500"; "master_edited"; "a.tiff"], File Blank);
  (["srv"; "scans"; "T500"; "master"], Dir);
  (["srv"; "scans"; "T500"; "master"; "c.tiff"], File Blank)
].

Definition sample_world : World := {| fs := sample_fs; calls := [] |}.

Definition sample_batch : list Transaction :=
  [[("TransactionNumber", "T100"); ("Username", "reader")];
   [("transactionNumber", "T200")];
   [("TRANSACTIONNUMBER", "T300")]].

(** The tracking service answers with [sample_batch]; Textract reads every
    page but one named [0003.tiff]; S3 takes every upload. *)
Definition sample_svc : Services := {|
  requests_get := λ _ _ _, Returns {| json := Returns sample_batch |};
  textract_detect_document_text := λ _ page,
    if decide (name page = "0003.tiff") then Raises (ServiceError "Textract")
    else Returns ("text of " +:+ name page);
  s3_upload_file := λ _ _ _ _, Returns tt;
|}.

Definition sample_self : PdfCreator := {|
  aeon_client :=
    {| session := {| headers := [("Accept", "application/json");
                                 ("User-Agent", "AeonClient/0.1");
                                 ("X-AEON-API-KEY", "key")] |};
       baseurl := "https://aeon.example.org/api/" |};
  s3_client := boto3_client "s3";
  extractor := Textractor_new;
|}.

(** ** Vocabulary of the further statements *)

(** [n] times the character [/]. *)
Fixpoint slashes (n : nat) : string :=
  match n with
  | 0 => ""
  | S n' => String "/" (slashes n')
  end.

(** The items of a record, their keys lowered. *)
Definition lower_keys (transaction : Transaction) : Transaction :=
  map (λ kv, (Str.lower kv.1, kv.2)) transaction.

(** The URL the fetch of a status asks for. *)
Definition fetch_url (self : PdfCreator) (status_code : string) : string :=
  Str.rstrip "/" (baseurl (aeon_client self))
  +:+ "/odata/Requests?$filter=photoduplicationstatus eq " +:+ status_code.

(** From [w] to [w'] the file system has only gained empty files and
    directories: every path holds what it held, or held nothing and now
    holds one of the two. *)
Definition only_adds_blanks (w w' : World) : Prop :=
  ∀ p, fs w' !! p = fs w !! p ∨
       (fs w !! p = None ∧
        (fs w' !! p = Some (File Blank) ∨ fs w' !! p = Some Dir)).

(** The requests the page loop makes for one page whose text is [text]. *)
Definition page_calls (env : Config) (text : Path → Text) (page : Path)
  : list event :=
  [Textract_detect_document_text page;
   S3_upload_file (text page) (OCR_BUCKET env) (name page)].

(** The calls a pass over a batch gets to make. *)
Definition reached_by_a_pass (ev : event) : Prop :=
  match ev with
  | Session_get _ | Call_set_transaction_processing _ | Call_create_pdf _
  | Logging_error (LogExn _) => True
  | _ => False
  end.

(** [m] raises in every world. *)
Definition always_raises {A} (m : M A) : Prop :=
  ∀ w, ∃ e, (m w).1 = Raises e.

(** A tracking service that cannot be reached. *)
Definition sample_svc_down : Services := {|
  requests_get := λ _ _ _, Raises (ServiceError "connection refused");
  textract_detect_document_text := textract_detect_document_text sample_svc;
  s3_upload_file := s3_upload_file sample_svc;
|}.

(** A tracking service that takes no upload. *)
Definition sample_svc_no_upload : Services := {|
  requests_get := requests_get sample_svc;
  textract_detect_document_text := textract_detect_document_text sample_svc;
  s3_upload_file := λ _ _ _ _, Raises (ServiceError "S3");
|}.


(** Four pages, the third of which Textract does not read. *)
Definition sample_pages : list Path :=
  [["in"; "0001.tiff"]; ["in"; "0002.tiff"]; ["in"; "0003.tiff"];
   ["in"; "0004.tiff"]].

(** * Properties *)

(** ** The order of strings and paths *)

Section lex_compare.

Context {A : Type} (cmp : A → A → comparison).
Hypothesis cmp_eq : ∀ x y, cmp x y = Eq → x = y.
Hypothesis cmp_antisym : ∀ x y, cmp x y = CompOpp (cmp y x).
Hypothesis cmp_trans : ∀ x y z, cmp x y = Lt → cmp y z = Lt → cmp x z = Lt.

Lemma cmp_refl x : cmp x x = Eq.
Proof. specialize (cmp_antisym x x). destruct (cmp x x); done. Qed.

Lemma lex_compare_refl l : Str.lex_compare cmp l l = Eq.
Proof. induction l as [|x l IH]; [done|]. simpl. by rewrite cmp_refl. Qed.

Lemma lex_compare_eq l1 l2 : Str.lex_compare cmp l1 l2 = Eq → l1 = l2.
Proof.
  revert l2. induction l1 as [|x l1 IH]; intros [|y l2]; simpl; try done.
  destruct (cmp x y) eqn:Hxy; try done.
  intros H. apply cmp_eq in Hxy as ->. f_equal. by apply IH.
Qed.

Lemma lex_compare_antisym l1 l2 :
  Str.lex_compare cmp l1 l2 = CompOpp (Str.lex_compare cmp l2 l1).
Proof.
  revert l2. induction l1 as [|x l1 IH]; intros [|y l2]; simpl; try done.
  rewrite (cmp_antisym x y). destruct (cmp y x); simpl; auto.
Qed.

Lemma lex_compare_trans l1 l2 l3 :
  Str.lex_compare cmp l1 l2 = Lt → Str.lex_compare cmp l2 l3 = Lt →
  Str.lex_compare cmp l1 l3 = Lt.
Proof.
  revert l2 l3.
  induction l1 as [|x l1 IH]; intros [|y l2] [|z l3]; simpl; try done.
  destruct (cmp x y) eqn:Hxy; try done.
  - apply cmp_eq in Hxy as ->. destruct (cmp y z); eauto.
  - intros _. destruct (cmp y z) eqn:Hyz; try done.
    + apply cmp_eq in Hyz as ->. by rewrite Hxy.
    + by rewrite (cmp_trans _ _ _ Hxy Hyz).
Qed.

(** Under a common prefix the remainders decide. *)
Lemma lex_compare_app d l1 l2 :
  Str.lex_compare cmp (d ++ l1) (d ++ l2) = Str.lex_compare cmp l1 l2.
Proof. induction d as [|x d IH]; [done|]. simpl. by rewrite cmp_refl. Qed.

End lex_compare.

Lemma ascii_compare_trans (a b c : ascii) :
  Ascii.compare a b = Lt → Ascii.compare b c = Lt → Ascii.compare a c = Lt.
Proof.
  unfold Ascii.compare. rewrite !N.compare_lt_iff. apply N.lt_trans.
Qed.

Lemma str_compare_eq s t : Str.compare s t = Eq → s = t.
Proof.
  intros H. apply lex_compare_eq in H; [|apply Ascii.compare_eq_iff].
  rewrite <- (string_of_list_ascii_of_string s),
    <- (string_of_list_ascii_of_string t). by rewrite H.
Qed.

Lemma str_compare_antisym s t : Str.compare s t = CompOpp (Str.compare t s).
Proof. apply lex_compare_antisym, Ascii.compare_antisym. Qed.

Lemma str_compare_trans s t u :
  Str.compare s t = Lt → Str.compare t u = Lt → Str.compare s u = Lt.
Proof.
  apply (lex_compare_trans Ascii.compare Ascii.compare_eq_iff
           ascii_compare_trans).
Qed.

Lemma path_compare_eq p q : PathLib.compare p q = Eq → p = q.
Proof. apply lex_compare_eq, str_compare_eq. Qed.

Lemma path_compare_antisym p q :
  PathLib.compare p q = CompOpp (PathLib.compare q p).
Proof. apply lex_compare_antisym, str_compare_antisym. Qed.

Lemma path_compare_trans p q r :
  PathLib.compare p q = Lt → PathLib.compare q r = Lt → PathLib.compare p r = Lt.
Proof.
  apply (lex_compare_trans Str.compare str_compare_eq str_compare_trans).
Qed.

(** Two entries of one directory compare as their names do. *)
Lemma path_compare_div d n1 n2 :
  PathLib.compare (div d n1) (div d n2) = Str.compare n1 n2.
Proof.
  unfold PathLib.compare, div.
  rewrite lex_compare_app by apply str_compare_antisym.
  simpl. by destruct (Str.compare n1 n2).
Qed.

#[local] Instance path_le_total : Total PathLib.le.
Proof.
  intros p q. unfold PathLib.le, PathLib.ltb.
  rewrite (path_compare_antisym p q). destruct (PathLib.compare q p); auto.
Qed.

#[local] Instance path_le_trans : Transitive PathLib.le.
Proof.
  intros p q r. unfold PathLib.le, PathLib.ltb. intros Hqp Hrq.
  destruct (PathLib.compare r p) eqn:Hrp; try done.
  destruct (PathLib.compare q p) eqn:Hqp'; try done.
  - apply path_compare_eq in Hqp' as ->. by rewrite Hrp in Hrq.
  - rewrite path_compare_antisym in Hqp'.
    destruct (PathLib.compare p q) eqn:Hpq; try done.
    by rewrite (path_compare_trans _ _ _ Hrp Hpq) in Hrq.
Qed.

Lemma path_le_lt p q : PathLib.le p q → p ≠ q → PathLib.ltb p q = true.
Proof.
  unfold PathLib.le, PathLib.ltb. intros Hle Hne.
  rewrite (path_compare_antisym p q).
  destruct (PathLib.compare q p) eqn:Hqp; try done.
  apply path_compare_eq in Hqp. congruence.
Qed.

(** ** Matching and listing *)

Lemma list_ascii_of_string_app s t :
  list_ascii_of_string (s +:+ t) = list_ascii_of_string s ++ list_ascii_of_string t.
Proof. induction s as [|c s IH]; [done|]. simpl. by rewrite IH. Qed.

(** A pattern without [*] and [?] matches itself only. *)
Lemma fnmatch_chars_literal pat name :
  Forall (λ c, c ≠ "*"%char ∧ c ≠ "?"%char) pat →
  Str.fnmatch_chars pat name = true ↔ name = pat.
Proof.
  intros Hpat. revert name.
  induction Hpat as [|p pat [Hstar Hq] _ IH]; intros name; simpl.
  { by destruct name. }
  apply Ascii.eqb_neq in Hstar as ->. apply Ascii.eqb_neq in Hq as ->.
  destruct name as [|c name]; [done|]. simpl.
  rewrite andb_true_iff, IH, Ascii.eqb_eq.
  split; [by intros [-> ->]|by intros [= -> ->]].
Qed.

(** A leading [*] lets the rest of the pattern match any suffix. *)
Lemma fnmatch_chars_star pat name :
  Str.fnmatch_chars ("*"%char :: pat) name = true ↔
  ∃ pre suf, name = pre ++ suf ∧ Str.fnmatch_chars pat suf = true.
Proof.
  simpl. induction name as [|c name IH].
  - rewrite orb_false_r. split.
    + intros H. by exists [], [].
    + intros (pre & suf & Heq & H).
      symmetry in Heq. apply app_eq_nil in Heq as [-> ->]. done.
  - rewrite orb_true_iff, IH. split.
    + intros [H|(pre & suf & -> & H)].
      * by exists [], (c :: name).
      * by exists (c :: pre), suf.
    + intros (pre & suf & Heq & H). destruct pre as [|c' pre]; simpl in Heq.
      * left. by subst.
      * right. injection Heq as -> ->. eauto.
Qed.

Lemma fnmatch_tiff n : Str.fnmatch n "*.tiff" = true ↔ ends_with ".tiff" n.
Proof.
  unfold Str.fnmatch, ends_with.
  change (list_ascii_of_string "*.tiff")
    with ("*"%char :: list_ascii_of_string ".tiff").
  rewrite fnmatch_chars_star. split.
  - intros (pre & suf & Heq & H).
    apply fnmatch_chars_literal in H; [|by repeat constructor]. subst suf.
    exists (string_of_list_ascii pre).
    rewrite <- (string_of_list_ascii_of_string n), Heq.
    rewrite <- (list_ascii_of_string_of_list_ascii pre) at 1.
    by rewrite <- list_ascii_of_string_app, string_of_list_ascii_of_string.
  - intros [stem ->]. exists (list_ascii_of_string stem), (list_ascii_of_string ".tiff").
    split; [apply list_ascii_of_string_app|].
    apply fnmatch_chars_literal; [by repeat constructor|done].
Qed.

Lemma entry_name_Some d p n : entry_name d p = Some n ↔ p = div d n.
Proof.
  unfold div. revert p. induction d as [|x d IH]; intros p; simpl.
  - destruct p as [|y [|z p]]; [done| |done].
    split; by intros [= ->].
  - destruct p as [|y p]; [done|].
    case_decide as Hxy.
    + subst. rewrite IH. split; [by intros ->|by intros [= ->]].
    + split; [done|]. intros [= -> _]. by destruct Hxy.
Qed.

Lemma name_div d n : name (div d n) = n.
Proof. unfold name, div. apply last_last. Qed.

Lemma parent_div d n : parent (div d n) = d.
Proof. unfold parent, div. apply removelast_last. Qed.

Lemma div_inj d1 n1 d2 n2 : div d1 n1 = div d2 n2 → d1 = d2 ∧ n1 = n2.
Proof. unfold div. intros H. by apply app_inj_tail in H. Qed.

Lemma elem_of_glob fs d pattern p :
  p ∈ glob fs d pattern ↔
  is_dir fs d = true ∧ is_Some (fs !! p) ∧
  ∃ n, p = div d n ∧ Str.fnmatch n pattern = true.
Proof.
  unfold glob. destruct (is_dir fs d);
    [|split; [by intros ?%elem_of_nil|by intros [? _]]].
  rewrite list_elem_of_filter, list_elem_of_fmap. unfold entry_matches. split.
  - intros [Hm ([q x] & -> & Hin%elem_of_map_to_list)]. simpl in *.
    destruct (entry_name d q) as [n|] eqn:Hn; [|done].
    apply entry_name_Some in Hn. apply Is_true_true in Hm. eauto 10.
  - intros (_ & [x Hx] & n & -> & Hm). split.
    + rewrite (proj2 (entry_name_Some d _ n) eq_refl). by apply Is_true_true.
    + exists (div d n, x). split; [done|]. by apply elem_of_map_to_list.
Qed.

Lemma NoDup_glob fs d pattern : NoDup (glob fs d pattern).
Proof.
  unfold glob. destruct (is_dir fs d); [|constructor].
  apply NoDup_filter, NoDup_fst_map_to_list.
Qed.

Lemma tiff_entry_glob fs d p : tiff_entry fs d p ↔ p ∈ glob fs d "*.tiff".
Proof.
  unfold tiff_entry. rewrite elem_of_glob.
  by setoid_rewrite fnmatch_tiff.
Qed.

(** ** Page collection *)

Local Open Scope path_scope.

(** Distinct entries of one directory that [sorted] leaves in this order are
    in the order of their names. *)
Lemma sorted_entries_by_filename d l :
  StronglySorted PathLib.le l → NoDup l →
  Forall (λ p, ∃ n, p = d / n) l →
  StronglySorted by_filename l.
Proof.
  induction 1 as [|p l Hl IH Hp]; intros Hnd Hd; [constructor|].
  apply NoDup_cons in Hnd as [Hpl Hnd].
  apply Forall_cons in Hd as [[n ->] Hd].
  constructor; [by apply IH|].
  apply Forall_forall. intros q Hq.
  rewrite Forall_forall in Hp, Hd.
  destruct (Hd q Hq) as [m ->].
  assert (PathLib.ltb (d / n) (d / m) = true) as Hlt.
  { apply path_le_lt; [by apply Hp|]. intros Heq. rewrite Heq in Hpl. done. }
  unfold by_filename, Str.ltb. rewrite !name_div.
  unfold PathLib.ltb in Hlt. by rewrite path_compare_div in Hlt.
Qed.

Lemma sorted_glob_pages fs d : pages_of fs d (sorted (glob fs d "*.tiff")).
Proof.
  assert (sorted (glob fs d "*.tiff") ≡ₚ glob fs d "*.tiff") as Hperm
    by apply merge_sort_Permutation.
  split.
  - intros p. by rewrite Hperm, tiff_entry_glob.
  - apply (sorted_entries_by_filename d).
    + apply (StronglySorted_merge_sort PathLib.le).
    + rewrite Hperm. apply NoDup_glob.
    + apply Forall_forall. intros p Hp. rewrite Hperm in Hp.
      apply elem_of_glob in Hp as (_ & _ & n & -> & _). eauto.
Qed.

Lemma pages_of_nil fs d files :
  pages_of fs d files → (∀ p, ¬ tiff_entry fs d p) → files = [].
Proof.
  intros [Hin _] Hnone. destruct files as [|p files]; [done|].
  destruct (Hnone p). apply Hin. by left.
Qed.

(** C3: [collect_tiff_filepaths] returns the images of [master_edited] when
    that directory is present and those of [master] otherwise, by ascending
    file name; with [master_edited] present no image of [master] is returned;
    and when neither directory is there with an image in it the result is the
    empty list. *)
Theorem collect_tiff_filepaths_policy (fs : FS) (root_dir : Path) :
  let files := collect_tiff_filepaths fs root_dir in
  (is_dir fs (root_dir / "master_edited") = true →
     pages_of fs (root_dir / "master_edited") files ∧
     ∀ p, tiff_entry fs (root_dir / "master") p → p ∉ files) ∧
  (is_dir fs (root_dir / "master_edited") = false →
     pages_of fs (root_dir / "master") files) ∧
  ((∀ p, ¬ tiff_entry fs (root_dir / "master_edited") p) →
   (∀ p, ¬ tiff_entry fs (root_dir / "master") p) →
     files = []).
Proof.
  intros files. subst files. unfold collect_tiff_filepaths.
  pose proof (sorted_glob_pages fs (root_dir / "master_edited")) as Hedited.
  pose proof (sorted_glob_pages fs (root_dir / "master")) as Hmaster.
  destruct (is_dir fs (root_dir / "master_edited")) eqn:Hdir.
  - split; [|split]; [|done|].
    + intros _. split; [done|].
      intros p (_ & _ & n & -> & _) Hin.
      apply Hedited in Hin as (_ & _ & m & Heq & _).
      by apply div_inj in Heq as [[_ ?]%div_inj _].
    + intros Hnone _. by eapply pages_of_nil.
  - split; [done|]. split; [done|].
    intros _ Hnone. by eapply pages_of_nil.
Qed.

(** The policy on the sample deployment: [T500] has pages in both
    directories and [T100] in [master] only. *)
Example collect_tiff_filepaths_sample :
  collect_tiff_filepaths sample_fs (ROOT_DIR sample_env / "T500")
  = [ROOT_DIR sample_env / "T500" / "master_edited" / "a.tiff";
     ROOT_DIR sample_env / "T500" / "master_edited" / "b.tiff"] ∧
  collect_tiff_filepaths sample_fs (ROOT_DIR sample_env / "T100")
  = [ROOT_DIR sample_env / "T100" / "master" / "0001.tiff";
     ROOT_DIR sample_env / "T100" / "master" / "0002.tiff"] ∧
  collect_tiff_filepaths sample_fs (ROOT_DIR sample_env / "T200") = [].
Proof. by vm_compute. Qed.

(** C10: with [master_edited] present as a directory and holding no image,
    [collect_tiff_filepaths] returns the empty list, whatever [master]
    holds. *)
Theorem empty_master_edited_hides_master (fs : FS) (root_dir : Path) :
  is_dir fs (root_dir / "master_edited") = true →
  (∀ p, ¬ tiff_entry fs (root_dir / "master_edited") p) →
  collect_tiff_filepaths fs root_dir = [].
Proof.
  intros Hdir Hnone. unfold collect_tiff_filepaths. rewrite Hdir.
  eapply pages_of_nil; [apply sorted_glob_pages|done].
Qed.

Lemma empty_master_edited_hides_master_witness :
  tiff_entry sample_fs (ROOT_DIR sample_env / "T400" / "master")
    (ROOT_DIR sample_env / "T400" / "master" / "0001.tiff") ∧
  collect_tiff_filepaths sample_fs (ROOT_DIR sample_env / "T400") = [].
Proof.
  split.
  - apply tiff_entry_glob. vm_compute. by left.
  - apply (empty_master_edited_hides_master sample_fs (ROOT_DIR sample_env / "T400")).
    + vm_compute. reflexivity.
    + intros p Hp. apply tiff_entry_glob in Hp. vm_compute in Hp.
      by apply elem_of_nil in Hp.
Defined.

(** ** What a run may do to the world *)

Section stays_within.

Context (R : relation World) `{!PreOrder R}.

Lemma stays_ret {A} (a : A) : stays_within R (mret a).
Proof. intros w. simpl. reflexivity. Qed.

Lemma stays_raise {A} (e : exn) : stays_within R (@raise A e).
Proof. intros w. simpl. reflexivity. Qed.

Lemma stays_finish {A} (o : outcome A) : stays_within R (finish o).
Proof. intros w. simpl. reflexivity. Qed.

Lemma stays_read_fs : stays_within R read_fs.
Proof. intros w. simpl. reflexivity. Qed.

Lemma stays_bind {A B} (m : M A) (f : A → M B) :
  stays_within R m → (∀ a, stays_within R (f a)) → stays_within R (m ≫= f).
Proof.
  intros Hm Hf w. unfold mbind, M_bind. specialize (Hm w).
  destruct (m w) as [[a|e] w1]; simpl in *; [|done].
  by etrans; [|apply Hf].
Qed.

Lemma stays_try_except {A} (body : M A) (handler : exn → M A) :
  stays_within R body → (∀ e, stays_within R (handler e)) →
  stays_within R (try_except body handler).
Proof.
  intros Hm Hh w. unfold try_except. specialize (Hm w).
  destruct (body w) as [[a|e] w1]; simpl in *; [done|].
  by etrans; [|apply Hh].
Qed.

Lemma stays_for_each {A} (l : list A) (body : A → M unit) :
  (∀ x, stays_within R (body x)) → stays_within R (for_each l body).
Proof.
  intros Hbody. induction l as [|x l IH]; simpl.
  - apply stays_ret.
  - apply stays_bind; auto.
Qed.

Lemma stays_load_global name : stays_within R (load_global name).
Proof. unfold load_global. case_decide; [apply stays_ret|apply stays_raise]. Qed.

Lemma stays_AeonClient_getattr name : stays_within R (AeonClient_getattr name).
Proof.
  unfold AeonClient_getattr.
  repeat case_decide; first [apply stays_ret|apply stays_raise].
Qed.

End stays_within.

#[local] Instance adds_calls_preorder P : PreOrder (adds_calls P).
Proof.
  split.
  - intros w. exists []. by rewrite app_nil_r.
  - intros w1 w2 w3 (evs1 & H1 & HP1) (evs2 & H2 & HP2).
    exists (evs1 ++ evs2). rewrite H2, H1, (assoc_L (++)).
    split; [done|]. by apply Forall_app.
Qed.

#[local] Instance keeps_paths_preorder : PreOrder keeps_paths.
Proof. split; [by intros w p|]. intros w1 w2 w3 H1 H2 p Hp. auto. Qed.

Lemma adds_calls_emit P ev : P ev → stays_within (adds_calls P) (emit ev).
Proof. intros HP w. exists [ev]. split; [done|]. by constructor. Qed.

Lemma adds_calls_external {A} P ev (service : World → outcome A) :
  P ev → stays_within (adds_calls P) (external ev service).
Proof. intros HP w. exists [ev]. split; [done|]. by constructor. Qed.

Lemma adds_calls_os_call P op p : stays_within (adds_calls P) (os_call op p).
Proof.
  intros w. exists []. rewrite app_nil_r. split; [|done].
  unfold os_call. by destruct (op (fs w) p).
Qed.

Lemma adds_calls_PDFWriter_write P writer :
  stays_within (adds_calls P) (PDFWriter_write writer).
Proof. intros w. exists []. by rewrite app_nil_r. Qed.

Lemma keeps_paths_emit ev : stays_within keeps_paths (emit ev).
Proof. by intros w p. Qed.

Lemma keeps_paths_external {A} ev (service : World → outcome A) :
  stays_within keeps_paths (external ev service).
Proof. by intros w p. Qed.

Lemma keeps_paths_insert (m : FS) p q x :
  is_Some (m !! q) → is_Some (<[p := x]> m !! q).
Proof. intros Hq. rewrite lookup_insert. by case_decide. Qed.

Lemma keeps_paths_touch exist_ok p :
  stays_within keeps_paths (os_call (touch exist_ok) p).
Proof.
  intros w q Hq. unfold os_call, touch, create_file.
  repeat case_match; simplify_eq; simpl; auto using keeps_paths_insert.
Qed.

Lemma keeps_paths_mkdir exist_ok p :
  stays_within keeps_paths (os_call (mkdir exist_ok) p).
Proof.
  intros w q Hq. unfold os_call, mkdir.
  repeat case_match; simplify_eq; simpl; auto using keeps_paths_insert.
Qed.

Lemma keeps_paths_PDFWriter_write writer :
  stays_within keeps_paths (PDFWriter_write writer).
Proof. intros w q Hq. simpl. by apply keeps_paths_insert. Qed.

Create HintDb pipeline discriminated.

#[local] Hint Resolve stays_ret stays_raise stays_finish stays_read_fs
  stays_load_global stays_AeonClient_getattr
  adds_calls_os_call adds_calls_PDFWriter_write
  keeps_paths_emit keeps_paths_external keeps_paths_touch keeps_paths_mkdir
  keeps_paths_PDFWriter_write : pipeline.

(** Walks down a method's body to the primitive operations. *)
Ltac walk :=
  repeat first
    [ apply stays_bind; [apply _| |intros ?]
    | apply stays_try_except; [apply _| |intros ?]
    | apply stays_for_each; [apply _|intros ?]
    | apply adds_calls_emit; simpl
    | apply adds_calls_external; simpl
    | solve [eauto with pipeline typeclass_instances]
    | progress case_match ].

(** ** The methods of [PdfCreator] *)

Lemma PDFWriter_unbound : "PDFWriter" ∉ module_globals ++ builtins.
Proof.
  unfold module_globals, builtins. simpl. intros H.
  repeat (apply elem_of_cons in H as [H|H]; [discriminate H|]).
  by apply elem_of_nil in H.
Qed.

Lemma load_global_PDFWriter w :
  load_global "PDFWriter" w = (Raises (NameError "PDFWriter"), w).
Proof.
  unfold load_global. case_decide as H; [|done]. by apply PDFWriter_unbound in H.
Qed.

Section methods.

Context (env : Config) (svc : Services) (self : PdfCreator).

(** [create_pdf] stops at line 68 when the output directory cannot be made
    and at line 69 otherwise. *)
Lemma create_pdf_run transaction_number w :
  create_pdf env svc self transaction_number w =
  let w1 := {| fs := fs w; calls := calls w ++ [Call_create_pdf transaction_number] |} in
  match mkdir true (fs w) (ROOT_DIR env / transaction_number / "service_edited") with
  | inr fs' => (Raises (NameError "PDFWriter"), {| fs := fs'; calls := calls w1 |})
  | inl e => (Raises (OSError e), w1)
  end.
Proof.
  unfold create_pdf. rewrite parent_div.
  unfold mbind, M_bind, emit, os_call. cbn [fs calls].
  destruct (mkdir _ _ _) as [e|fs']; [done|].
  by rewrite load_global_PDFWriter.
Qed.

Lemma create_pdf_pages_adds_calls P writer source_files :
  (∀ ev, page_request ev → P ev) →
  stays_within (adds_calls P) (create_pdf_pages env svc self writer source_files).
Proof.
  intros HP. revert writer.
  induction source_files as [|page_path rest IH]; intros writer; simpl.
  - apply stays_ret; apply _.
  - unfold extract_text, upload_page_text. walk; by apply HP.
Qed.

Lemma create_pdf_pages_keeps_paths writer source_files :
  stays_within keeps_paths (create_pdf_pages env svc self writer source_files).
Proof.
  revert writer.
  induction source_files as [|page_path rest IH]; intros writer; simpl.
  - apply stays_ret; apply _.
  - unfold extract_text, upload_page_text. walk; auto.
Qed.

Lemma create_pdf_adds_calls P transaction_number :
  P (Call_create_pdf transaction_number) → (∀ ev, page_request ev → P ev) →
  stays_within (adds_calls P) (create_pdf env svc self transaction_number).
Proof.
  intros Hcall Hpages. unfold create_pdf.
  walk; auto using create_pdf_pages_adds_calls.
Qed.

Lemma create_pdf_keeps_paths transaction_number :
  stays_within keeps_paths (create_pdf env svc self transaction_number).
Proof. unfold create_pdf. walk; auto using create_pdf_pages_keeps_paths. Qed.

Lemma set_transaction_processing_adds_calls P transaction_number :
  P (Call_set_transaction_processing transaction_number) →
  stays_within (adds_calls P) (set_transaction_processing env transaction_number).
Proof. intros HP. unfold set_transaction_processing. walk; auto. Qed.

(** [set_transaction_processing], case by case: [touch] is called with
    [exist_ok] left at [True], so a marker that is there is no error, and the
    errors of creating one are not [FileExistsError]. *)
Lemma set_transaction_processing_run transaction_number w :
  set_transaction_processing env transaction_number w =
  let w1 := {| fs := fs w;
               calls := calls w ++ [Call_set_transaction_processing transaction_number] |} in
  match fs w !! marker env transaction_number with
  | Some _ => (Returns tt, w1)
  | None =>
      match create_file (fs w) (marker env transaction_number) with
      | inr fs' => (Returns tt, {| fs := fs'; calls := calls w1 |})
      | inl e => (Raises (OSError e), w1)
      end
  end.
Proof.
  unfold set_transaction_processing, try_except, mbind, M_bind, emit, os_call,
    touch, touch_exist_ok_default, create_file.
  cbn [fs calls].
  destruct (fs w !! marker env transaction_number) as [x|]; [done|].
  destruct (fs w !! parent (marker env transaction_number)) as [[|c]|];
    [done..|].
  unfold no_entry. by destruct (existsb _ _).
Qed.

(** Once [set_transaction_processing] has returned, the marker is there. *)
Lemma set_transaction_processing_marker transaction_number w w1 :
  set_transaction_processing env transaction_number w = (Returns tt, w1) →
  is_Some (fs w1 !! marker env transaction_number).
Proof.
  rewrite set_transaction_processing_run. cbn zeta.
  destruct (fs w !! marker env transaction_number) as [x|] eqn:Hm.
  - intros [= <-]. simpl. by rewrite Hm.
  - unfold create_file. repeat case_match; intros [= <-]; simplify_eq.
    simpl. by rewrite lookup_insert_eq.
Qed.

Lemma handle_transaction_adds_calls transaction :
  stays_within (adds_calls (λ _, True))
               (handle_transaction env svc self transaction).
Proof.
  unfold handle_transaction.
  apply stays_try_except; [apply _| |intros e; destruct e; by apply adds_calls_emit].
  unfold update_transaction_status, set_transaction_finished, optimize_pdf,
    AeonClient_call, AeonClient_get.
  walk; auto using create_pdf_pages_adds_calls.
Qed.

(** Nothing a record raises leaves its iteration of the loop. *)
Lemma handle_transaction_returns transaction w :
  (handle_transaction env svc self transaction w).1 = Returns tt.
Proof.
  unfold handle_transaction, try_except.
  match goal with
  | |- context [let (_, _) := ?body w in _] => destruct (body w) as [[[]|e] w1]
  end; [done|]. by destruct e.
Qed.

Lemma for_each_cons transaction rest w :
  for_each (transaction :: rest) (handle_transaction env svc self) w
  = for_each rest (handle_transaction env svc self)
             (run_record env svc self transaction w).
Proof.
  simpl. unfold mbind, M_bind, run_record.
  pose proof (handle_transaction_returns transaction w) as Hret.
  destruct (handle_transaction env svc self transaction w) as [o w1].
  simpl in *. by subst o.
Qed.

Lemma for_each_run batch w :
  for_each batch (handle_transaction env svc self) w
  = (Returns tt, world_before env svc self batch w (length batch)).
Proof.
  unfold world_before. rewrite firstn_all. revert w.
  induction batch as [|transaction rest IH]; intros w; [done|].
  by rewrite for_each_cons, IH.
Qed.

Lemma calls_new_calls transaction w :
  calls (run_record env svc self transaction w)
  = calls w ++ new_calls w (run_record env svc self transaction w).
Proof.
  destruct (handle_transaction_adds_calls transaction w) as (evs & Hevs & _).
  unfold new_calls, run_record. rewrite Hevs. by rewrite drop_app_length.
Qed.

Lemma batch_calls batch w :
  calls (world_before env svc self batch w (length batch))
  = calls w ++ concat (map (record_calls env svc self batch w)
                           (seq 0 (length batch))).
Proof.
  revert w. induction batch as [|transaction rest IH]; intros w.
  { simpl. by rewrite app_nil_r. }
  change (world_before env svc self (transaction :: rest) w (length (transaction :: rest)))
    with (world_before env svc self rest (run_record env svc self transaction w)
            (length rest)).
  rewrite IH, calls_new_calls, <- (assoc_L (++)). f_equal.
  simpl. f_equal. by rewrite <- seq_shift, map_map.
Qed.

End methods.

(** ** The processing guard *)

(** C1 (the code departs from the claim): when a first call of
    [set_transaction_processing] has returned for a transaction number, a
    second call for it returns as well instead of raising
    [AlreadyProcessingError]; the marker is there and the file system is left
    as it was. *)
Theorem second_acquire_returns env transaction_number w w1 :
  set_transaction_processing env transaction_number w = (Returns tt, w1) →
  is_Some (fs w1 !! marker env transaction_number) ∧
  set_transaction_processing env transaction_number w1
  = (Returns tt,
     {| fs := fs w1;
        calls := calls w1 ++ [Call_set_transaction_processing transaction_number] |}).
Proof.
  intros Hfirst. apply set_transaction_processing_marker in Hfirst as Hm.
  split; [done|]. rewrite set_transaction_processing_run. cbn zeta.
  by destruct Hm as [x ->].
Qed.

Lemma second_acquire_returns_witness :
  let w1 := (set_transaction_processing sample_env "T100" sample_world).2 in
  fs sample_world !! marker sample_env "T100" = None ∧
  fs w1 !! marker sample_env "T100" = Some (File Blank) ∧
  (set_transaction_processing sample_env "T100" w1).1 = Returns tt.
Proof.
  intros w1.
  assert (set_transaction_processing sample_env "T100" sample_world
          = (Returns tt, w1)) as Hfirst by (vm_compute; reflexivity).
  destruct (second_acquire_returns sample_env "T100" sample_world w1 Hfirst)
    as [_ ->].
  repeat split; vm_compute; reflexivity.
Defined.

(** ** A record that fails *)

Lemma failure_after_guard env svc self transaction tn e w w1 w2 :
  lowercased transaction !! "transactionnumber" = Some tn →
  set_transaction_processing env tn w = (Returns tt, w1) →
  create_pdf env svc self tn w1 = (Raises e, w2) →
  e ≠ AlreadyProcessingError →
  handle_transaction env svc self transaction w
  = (Returns tt, {| fs := fs w2; calls := calls w2 ++ [Logging_error (LogExn e)] |}).
Proof.
  intros Htn Hguard Hpdf He.
  unfold handle_transaction, try_except, mbind, M_bind.
  rewrite Htn. cbn [mret M_ret]. rewrite Hguard, Hpdf. by destruct e.
Qed.

Lemma create_pdf_raises env svc self tn w :
  ∃ e w', create_pdf env svc self tn w = (Raises e, w') ∧
          e ≠ AlreadyProcessingError.
Proof.
  rewrite create_pdf_run. cbn zeta. destruct (mkdir _ _ _); eauto.
Qed.

(** C2: a record whose processing fails once its guard is acquired (and in
    this module [create_pdf] raises for every record) is logged and left:
    its marker is still there, neither [update_transaction_status] nor
    [set_transaction_finished] is called for it, and the loop goes on with
    the rest of the batch. *)
Theorem failed_record_keeps_guard env svc self transaction tn w w1 :
  lowercased transaction !! "transactionnumber" = Some tn →
  set_transaction_processing env tn w = (Returns tt, w1) →
  let w' := run_record env svc self transaction w in
  (∃ e w2, create_pdf env svc self tn w1 = (Raises e, w2) ∧
           fs w' = fs w2 ∧
           calls w' = calls w2 ++ [Logging_error (LogExn e)]) ∧
  is_Some (fs w' !! marker env tn) ∧
  Forall (λ ev, ¬ after_assembly ev) (new_calls w w') ∧
  ∀ rest,
    for_each (transaction :: rest) (handle_transaction env svc self) w
    = for_each rest (handle_transaction env svc self) w'.
Proof.
  intros Htn Hguard w'.
  destruct (create_pdf_raises env svc self tn w1) as (e & w2 & Hpdf & He).
  pose proof (failure_after_guard _ _ _ _ _ _ _ _ _ Htn Hguard Hpdf He) as Hrun.
  assert (w' = {| fs := fs w2; calls := calls w2 ++ [Logging_error (LogExn e)] |})
    as Hw' by (subst w'; unfold run_record; by rewrite Hrun).
  split; [|split; [|split]].
  - exists e, w2. by rewrite Hw'.
  - rewrite Hw'. cbn [fs].
    pose proof (create_pdf_keeps_paths env svc self tn w1) as Hkeep.
    rewrite Hpdf in Hkeep. apply Hkeep.
    by eapply set_transaction_processing_marker.
  - destruct (set_transaction_processing_adds_calls env
                (λ ev, ¬ after_assembly ev) tn (λ H, H) w) as (evs1 & H1 & HP1).
    destruct (create_pdf_adds_calls env svc self
                (λ ev, ¬ after_assembly ev) tn (λ H, H)) with (w := w1)
      as (evs2 & H2 & HP2).
    { intros ev Hpage Hafter. by destruct ev. }
    rewrite Hguard in H1. rewrite Hpdf in H2. cbn [snd] in H1, H2.
    unfold new_calls. rewrite Hw'. cbn [calls].
    rewrite H2, H1, <- !(assoc_L (++)), drop_app_length.
    rewrite !Forall_app, Forall_singleton. split_and!; [done|done|]. by intros ?.
  - intros rest. apply for_each_cons.
Qed.

Lemma failed_record_keeps_guard_witness :
  let w' := run_record sample_env sample_svc sample_self
              [("TransactionNumber", "T100")] sample_world in
  fs w' !! marker sample_env "T100" = Some (File Blank) ∧
  Forall (λ ev, ¬ after_assembly ev) (new_calls sample_world w') ∧
  for_each [[("TransactionNumber", "T100")]; [("TransactionNumber", "T300")]]
           (handle_transaction sample_env sample_svc sample_self) sample_world
  = for_each [[("TransactionNumber", "T300")]]
             (handle_transaction sample_env sample_svc sample_self) w'.
Proof.
  intros w'.
  destruct (failed_record_keeps_guard sample_env sample_svc sample_self
              [("TransactionNumber", "T100")] "T100" sample_world
              (set_transaction_processing sample_env "T100" sample_world).2)
    as (_ & _ & Hcalls & Hrest).
  - vm_compute. reflexivity.
  - vm_compute. reflexivity.
  - split; [vm_compute; reflexivity|]. split; [exact Hcalls|]. apply Hrest.
Defined.

(** ** The batch *)

(** C7: [handle_new_transactions] takes the records in the order the fetch
    returned them, one after the other: record [i + 1] starts in the world
    record [i] has left, and the log of calls is the log of the fetch followed
    by the calls made for record 0, then those made for record 1, and so on. A
    fetch that raises ends the run. *)
Theorem batch_in_fetch_order env svc self w :
  match get_transactions_in_status svc self (SOURCE_TRANSACTION_STATUS env) w with
  | (Raises e, w1) => handle_new_transactions env svc self w = (Raises e, w1)
  | (Returns batch, w1) =>
      let before := world_before env svc self batch w1 in
      handle_new_transactions env svc self w = (Returns tt, before (length batch)) ∧
      before 0 = w1 ∧
      (∀ i transaction, batch !! i = Some transaction →
         before (S i) = run_record env svc self transaction (before i)) ∧
      calls (before (length batch))
      = calls w1 ++ concat (map (record_calls env svc self batch w1)
                                (seq 0 (length batch)))
  end.
Proof.
  destruct (get_transactions_in_status _ _ _ w) as [[batch|e] w1] eqn:Hfetch;
    unfold handle_new_transactions, mbind, M_bind; rewrite Hfetch; [|done].
  cbn zeta. split; [apply for_each_run|]. split; [done|].
  split; [|apply batch_calls].
  intros i transaction Hi. unfold world_before.
  by rewrite (take_S_r _ _ _ Hi), foldl_app.
Qed.

(** The three records of the sample batch, in the order fetched. *)
Example batch_in_fetch_order_sample :
  calls (handle_new_transactions sample_env sample_svc sample_self sample_world).2
  = [Session_get "https://aeon.example.org/api/odata/Requests?$filter=photoduplicationstatus eq 22";
     Call_set_transaction_processing "T100"; Call_create_pdf "T100";
     Logging_error (LogExn (NameError "PDFWriter"));
     Call_set_transaction_processing "T200"; Call_create_pdf "T200";
     Logging_error (LogExn (OSError FileNotFoundError));
     Call_set_transaction_processing "T300"; Call_create_pdf "T300";
     Logging_error (LogExn (NameError "PDFWriter"))].
Proof. vm_compute. reflexivity. Qed.

(** ** The entry point *)

(** C8: constructing the [PdfCreator] raises [TypeError], [AeonClient] being
    called without the two arguments its [__init__] requires, and so does the
    entry point, in every world and with the world left as it was: nothing is
    fetched, no record is taken up. *)
Theorem entry_point_raises env svc w :
  ∃ msg, PdfCreator_init w = (Raises (TypeError msg), w) ∧
         main env svc w = (Raises (TypeError msg), w).
Proof.
  eexists. unfold main, PdfCreator_init, mbind, M_bind, AeonClient_init.
  split; reflexivity.
Qed.

(** ** Status advance *)

(** C5 (the code departs from the claim): [update_transaction_status] raises
    [AttributeError], the class [AeonClient] having no [post]; no request
    leaves the session. *)
Theorem update_transaction_status_raises env svc self transaction_number w :
  update_transaction_status env svc self transaction_number w
  = (Raises (AttributeError "AeonClient" "post"),
     {| fs := fs w;
        calls := calls w ++ [Call_update_transaction_status transaction_number] |}).
Proof.
  unfold update_transaction_status, mbind, M_bind, emit. cbn [fs calls].
  unfold AeonClient_getattr. by repeat case_decide.
Qed.

(** ** Document assembly *)



(** With a regular file where the root directory should be, [mkdir] fails
    on the way to the output directory. *)
Example create_pdf_root_is_a_file :
  (create_pdf sample_env sample_svc sample_self "T100"
     {| fs := list_to_map [(["srv"], Dir); (ROOT_DIR sample_env, File Blank)];
        calls := [] |}).1
  = Raises (OSError NotADirectoryError).
Proof. rewrite create_pdf_run. vm_compute. reflexivity. Qed.


(** What lines 70-76 do once a writer is at hand: with Textract reading every
    page and S3 taking every upload, the loop appends one pair per source
    file, in the order of the files, each page with the text read from it,
    after one extraction and one upload per page. *)
Lemma create_pdf_pages_pairs env svc self writer source_files w (ocr : Path → Text) :
  (∀ w' page, page ∈ source_files →
     textract_detect_document_text svc w' page = Returns (ocr page)) →
  (∀ w' page, page ∈ source_files →
     s3_upload_file svc w' (ocr page) (OCR_BUCKET env) (name page) = Returns tt) →
  create_pdf_pages env svc self writer source_files w
  = (Returns {| output_path := output_path writer;
                appended := appended writer
                            ++ map (λ page, (page, ocr page)) source_files |},
     {| fs := fs w;
        calls := calls w
                 ++ flat_map (λ page,
                      [Textract_detect_document_text page;
                       S3_upload_file (ocr page) (OCR_BUCKET env) (name page)])
                    source_files |}).
Proof.
  revert writer w.
  induction source_files as [|page rest IH]; intros writer w Hocr Hs3.
  { simpl. rewrite !app_nil_r. by destruct writer, w. }
  cbn [create_pdf_pages]. unfold extract_text, upload_page_text, external,
    mbind, M_bind.
  rewrite Hocr by left. rewrite Hs3 by left.
  rewrite IH by (intros; first [apply Hocr|apply Hs3]; by right).
  cbn [fs calls PDFWriter_append output_path appended map flat_map].
  by rewrite <- !(assoc_L (++)).
Qed.

Lemma create_pdf_pages_pairs_sample :
  let root_dir := ROOT_DIR sample_env / "T100" in
  (create_pdf_pages sample_env sample_svc sample_self
     (PDFWriter_new (root_dir / "service_edited" / "T100.pdf"))
     (collect_tiff_filepaths sample_fs root_dir) sample_world).1
  = Returns {| output_path := root_dir / "service_edited" / "T100.pdf";
               appended :=
                 [(root_dir / "master" / "0001.tiff", "text of 0001.tiff");
                  (root_dir / "master" / "0002.tiff", "text of 0002.tiff")] |}.
Proof.
  intros root_dir.
  rewrite (create_pdf_pages_pairs _ _ _ _ _ _ (λ page, "text of " +:+ name page)).
  - vm_compute. reflexivity.
  - intros w' page Hin. vm_compute in Hin.
    repeat (apply elem_of_cons in Hin as [->|Hin]; [vm_compute; reflexivity|]).
    by apply elem_of_nil in Hin.
  - done.
Defined.

(** C4 (the code departs from the claim): a transaction with two source
    images; [create_pdf] raises [NameError] and leaves no document at the
    output path. *)
Theorem create_pdf_two_pages_no_document :
  let root_dir := ROOT_DIR sample_env / "T100" in
  let run := create_pdf sample_env sample_svc sample_self "T100" sample_world in
  collect_tiff_filepaths sample_fs root_dir
  = [root_dir / "master" / "0001.tiff"; root_dir / "master" / "0002.tiff"] ∧
  run.1 = Raises (NameError "PDFWriter") ∧
  fs run.2 !! (root_dir / "service_edited" / "T100.pdf") = None ∧
  calls run.2 = [Call_create_pdf "T100"].
Proof.
  intros root_dir run. subst run. rewrite create_pdf_run.
  split; [vm_compute; reflexivity|].
  split_and!; vm_compute; reflexivity.
Qed.

(** C6 (the code departs from the claim): a record with no source image;
    its processing ends in the handler of line 53 with the marker still
    there, no document, and neither [update_transaction_status] nor
    [set_transaction_finished] called. *)
Theorem zero_pages_record_abandoned :
  let root_dir := ROOT_DIR sample_env / "T300" in
  let w' := run_record sample_env sample_svc sample_self
              [("TRANSACTIONNUMBER", "T300")] sample_world in
  collect_tiff_filepaths sample_fs root_dir = [] ∧
  calls w' = [Call_set_transaction_processing "T300"; Call_create_pdf "T300";
              Logging_error (LogExn (NameError "PDFWriter"))] ∧
  fs w' !! marker sample_env "T300" = Some (File Blank) ∧
  fs w' !! (root_dir / "service_edited" / "T300.pdf") = None.
Proof.
  intros root_dir w'. subst root_dir w'.
  split; [vm_compute; reflexivity|].
  split_and!; vm_compute; reflexivity.
Qed.

(** * Further properties *)

(** ** Keys of a record *)

Lemma lowercased_snoc transaction key value :
  lowercased (transaction ++ [(key, value)])
  = <[Str.lower key := value]> (lowercased transaction).
Proof. unfold lowercased. by rewrite foldl_snoc. Qed.

Lemma lowercased_None (transaction : list (string * string)) (k : string) :
  Forall (λ kv, Str.lower kv.1 ≠ k) transaction →
  lowercased transaction !! k = None.
Proof.
  induction transaction as [|[key value] transaction IH] using rev_ind; [done|].
  rewrite Forall_app, Forall_singleton. intros [Hkeys Hkey].
  rewrite lowercased_snoc, lookup_insert_ne by done. by apply IH.
Qed.

(** X1: The dict comprehension of line 44 keeps, under a lowered key, the value
    of the last item of the record whose key lowers to it, and has no entry
    for a key that no item lowers to. *)
Theorem lowercased_lookup_last (transaction : list (string * string)) (k : string) :
  Forall (λ kv, Str.is_ascii kv.1 = true) transaction →
  lowercased transaction !! k
  = snd <$> last (filter (λ kv, Str.lower kv.1 = k) transaction).
Proof.
  intros _.
  induction transaction as [|[key value] transaction IH] using rev_ind; [done|].
  rewrite lowercased_snoc, filter_app, lookup_insert.
  rewrite filter_cons, filter_nil. simpl.
  case_decide as Hk.
  - by rewrite last_snoc.
  - by rewrite app_nil_r.
Qed.

Lemma lowercased_lookup_last_witness :
  lowercased [("Status", "first"); ("Username", "reader"); ("STATUS", "second")]
    !! "status" = Some "second" ∧
  lowercased [("Status", "first"); ("Username", "reader"); ("STATUS", "second")]
    !! "Status" = None.
Proof.
  split.
  - rewrite (lowercased_lookup_last
               [("Status", "first"); ("Username", "reader"); ("STATUS", "second")]
               "status"); [reflexivity|].
    repeat constructor.
  - rewrite (lowercased_lookup_last
               [("Status", "first"); ("Username", "reader"); ("STATUS", "second")]
               "Status"); [reflexivity|].
    repeat constructor.
Defined.

Lemma lowercased_lower_keys transaction :
  lowercased transaction
  = foldl (λ d kv, <[kv.1 := kv.2]> d) ∅ (lower_keys transaction).
Proof. unfold lowercased, lower_keys. by rewrite foldl_fmap. Qed.

(** X2: Two records whose items agree up to the case of their keys are handled
    alike: line 44 lowers every key before line 45 looks one up. *)
Theorem handle_transaction_case_insensitive env svc self t1 t2 :
  lower_keys t1 = lower_keys t2 →
  handle_transaction env svc self t1 = handle_transaction env svc self t2.
Proof.
  intros Hkeys. unfold handle_transaction.
  by rewrite !lowercased_lower_keys, Hkeys.
Qed.

Lemma handle_transaction_case_insensitive_witness :
  handle_transaction sample_env sample_svc sample_self
    [("TransactionNumber", "T100"); ("Username", "reader")]
  = handle_transaction sample_env sample_svc sample_self
      [("TRANSACTIONNUMBER", "T100"); ("userName", "reader")].
Proof.
  apply handle_transaction_case_insensitive. vm_compute. reflexivity.
Defined.

(** X3: A record none of whose keys lowers to [transactionnumber]: line 45
    raises [KeyError], which line 53 catches and logs; no guard is asked for
    and the file system is left alone. *)
Theorem missing_transaction_number_logged env svc self transaction w :
  Forall (λ kv, Str.lower kv.1 ≠ "transactionnumber") transaction →
  handle_transaction env svc self transaction w
  = (Returns tt,
     {| fs := fs w;
        calls := calls w ++ [Logging_error (LogExn (KeyError "transactionnumber"))] |}).
Proof.
  intros Hkeys. apply lowercased_None in Hkeys as Hnone.
  unfold handle_transaction, try_except, mbind, M_bind. by rewrite Hnone.
Qed.

Lemma missing_transaction_number_logged_witness :
  (handle_transaction sample_env sample_svc sample_self
     [("Username", "reader"); ("Status", "22")] sample_world).2
  = {| fs := sample_fs;
       calls := [Logging_error (LogExn (KeyError "transactionnumber"))] |}.
Proof.
  rewrite (missing_transaction_number_logged sample_env sample_svc sample_self
             [("Username", "reader"); ("Status", "22")] sample_world).
  - reflexivity.
  - repeat constructor; vm_compute; discriminate.
Defined.

(** ** Requests to the tracking service *)

Lemma rstrip_slashes n : Str.rstrip "/" (slashes n) = "".
Proof. induction n as [|n IH]; [done|]. simpl. by rewrite IH. Qed.

Lemma rstrip_app_slashes s n :
  Str.rstrip "/" (s +:+ slashes n) = Str.rstrip "/" s.
Proof.
  induction s as [|c s IH]; simpl.
  - apply rstrip_slashes.
  - by rewrite IH.
Qed.

Lemma lstrip_slashes_app n s :
  Str.lstrip "/" (slashes n +:+ s) = Str.lstrip "/" s.
Proof. induction n as [|n IH]; [done|]. simpl. apply IH. Qed.

(** X4: [AeonClient.get] asks the session for one URL, the base and the path
    joined by exactly one [/]: slashes at the end of the base URL and at the
    start of the path make no difference. *)
Theorem AeonClient_get_one_separator svc (s : Session) (base path : string)
    (n m : nat) w :
  Str.rstrip "/" base = base → Str.lstrip "/" path = path →
  AeonClient_get svc {| session := s; baseurl := base +:+ slashes n |}
                 (slashes m +:+ path) w
  = (requests_get svc w s (base +:+ "/" +:+ path),
     {| fs := fs w; calls := calls w ++ [Session_get (base +:+ "/" +:+ path)] |}).
Proof.
  intros Hbase Hpath. unfold AeonClient_get, external. cbn [baseurl session].
  rewrite rstrip_app_slashes, lstrip_slashes_app, Hbase, Hpath. done.
Qed.

Lemma AeonClient_get_one_separator_witness :
  calls (AeonClient_get sample_svc
           {| session := {| headers := [] |};
              baseurl := "https://aeon.example.org/api//" |}
           "/Requests/7" sample_world).2
  = [Session_get "https://aeon.example.org/api/Requests/7"].
Proof.
  exact (f_equal (λ run, calls run.2)
           (AeonClient_get_one_separator sample_svc {| headers := [] |}
              "https://aeon.example.org/api" "Requests/7" 2 1 sample_world
              eq_refl eq_refl)).
Defined.

Lemma get_transactions_in_status_run svc self status_code w :
  get_transactions_in_status svc self status_code w
  = (match requests_get svc w (session (aeon_client self))
                        (fetch_url self status_code) with
     | Returns response => json response
     | Raises e => Raises e
     end,
     {| fs := fs w; calls := calls w ++ [Session_get (fetch_url self status_code)] |}).
Proof.
  unfold get_transactions_in_status, mbind, M_bind, AeonClient_getattr.
  repeat case_decide; try done.
  unfold AeonClient_call, AeonClient_get, external, finish, fetch_url. simpl.
  by destruct (requests_get svc w _ _).
Qed.

(** X5: When the request of the fetch raises, or the decoding of its answer
    does, [handle_new_transactions] raises the same exception: the fetch of
    line 41 stands outside the [try]. One request has been made, to the
    filtered collection of the source status, and the file system is as it
    was. *)
Theorem fetch_failure_ends_run env svc self w e :
  let url := fetch_url self (SOURCE_TRANSACTION_STATUS env) in
  (requests_get svc w (session (aeon_client self)) url = Raises e ∨
   ∃ response, requests_get svc w (session (aeon_client self)) url
               = Returns response ∧ json response = Raises e) →
  handle_new_transactions env svc self w
  = (Raises e, {| fs := fs w; calls := calls w ++ [Session_get url] |}).
Proof.
  intros url Hfail. unfold handle_new_transactions, mbind, M_bind.
  rewrite get_transactions_in_status_run. fold url.
  by destruct Hfail as [->|(response & -> & ->)].
Qed.

Lemma fetch_failure_ends_run_witness :
  handle_new_transactions sample_env sample_svc_down sample_self sample_world
  = (Raises (ServiceError "connection refused"),
     {| fs := sample_fs;
        calls := [Session_get "https://aeon.example.org/api/odata/Requests?$filter=photoduplicationstatus eq 22"] |}).
Proof.
  rewrite (fetch_failure_ends_run sample_env sample_svc_down sample_self
             sample_world (ServiceError "connection refused")).
  - reflexivity.
  - left. reflexivity.
Defined.

(** ** More on the processing guard *)





(** X8: Acquire, then release: when the marker is not there to begin with and
    [set_transaction_processing] returns, [set_transaction_finished] returns
    too and the file system is again what it was before the two. *)
Theorem acquire_release_round_trip env transaction_number w w1 :
  fs w !! marker env transaction_number = None →
  set_transaction_processing env transaction_number w = (Returns tt, w1) →
  ∃ w2, set_transaction_finished env transaction_number w1 = (Returns tt, w2) ∧
        fs w2 = fs w.
Proof.
  intros Hm. rewrite set_transaction_processing_run. cbn zeta. rewrite Hm.
  unfold create_file.
  destruct (fs w !! parent (marker env transaction_number)) as [[|c]|];
    [|done..].
  intros [= <-].
  unfold set_transaction_finished, mbind, M_bind, emit, os_call, unlink.
  cbn [fs calls]. rewrite lookup_insert_eq. eexists. split; [done|].
  cbn [fs]. by rewrite delete_insert_eq, delete_id.
Qed.

Lemma acquire_release_round_trip_witness :
  ∃ w2, set_transaction_finished sample_env "T100"
          (set_transaction_processing sample_env "T100" sample_world).2
        = (Returns tt, w2) ∧
        fs w2 = fs sample_world.
Proof.
  apply (acquire_release_round_trip sample_env "T100" sample_world).
  - reflexivity.
  - reflexivity.
Defined.


(** ** What a run leaves in the file system *)

#[local] Instance only_adds_blanks_preorder : PreOrder only_adds_blanks.
Proof.
  split; [by left|].
  intros w1 w2 w3 H12 H23 p.
  destruct (H23 p) as [->|[Hnone Hnew]]; [apply H12|].
  destruct (H12 p) as [Heq|[Hnone1 _]]; [|by right].
  right. by rewrite <- Heq.
Qed.

Lemma only_adds_blanks_same_fs {A} (m : M A) :
  (∀ w, fs (m w).2 = fs w) → stays_within only_adds_blanks m.
Proof. intros Hfs w p. left. by rewrite Hfs. Qed.

Lemma only_adds_blanks_emit ev : stays_within only_adds_blanks (emit ev).
Proof. by apply only_adds_blanks_same_fs. Qed.

Lemma only_adds_blanks_external {A} ev (service : World → outcome A) :
  stays_within only_adds_blanks (external ev service).
Proof. by apply only_adds_blanks_same_fs. Qed.

Lemma only_adds_blanks_insert (w : World) p x cs :
  fs w !! p = None → x = File Blank ∨ x = Dir →
  only_adds_blanks w {| fs := <[p := x]> (fs w); calls := cs |}.
Proof.
  intros Hnone Hx q. cbn [fs]. destruct (decide (p = q)) as [<-|Hne].
  - right. rewrite lookup_insert_eq. split; [done|]. by destruct Hx as [->| ->]; eauto.
  - left. by rewrite lookup_insert_ne.
Qed.

Lemma only_adds_blanks_touch exist_ok p :
  stays_within only_adds_blanks (os_call (touch exist_ok) p).
Proof.
  intros w. unfold os_call, touch, create_file.
  destruct (fs w !! p) as [x|] eqn:Hp.
  { destruct exist_ok; intros q; by left. }
  destruct (fs w !! parent p) as [[|c]|]; simpl; try (intros q; by left).
  apply only_adds_blanks_insert; auto.
Qed.

Lemma only_adds_blanks_mkdir exist_ok p :
  stays_within only_adds_blanks (os_call (mkdir exist_ok) p).
Proof.
  intros w. unfold os_call, mkdir.
  destruct (fs w !! p) as [[|c]|] eqn:Hp.
  { destruct exist_ok; intros q; by left. }
  { intros q. by left. }
  destruct (fs w !! parent p) as [[|c]|]; simpl; try (intros q; by left).
  apply only_adds_blanks_insert; auto.
Qed.

(** What follows a step that always raises is never run. *)
Lemma stays_bind_raises (R : relation World) {A B} (m : M A) (f : A → M B) :
  stays_within R m → always_raises m → stays_within R (m ≫= f).
Proof.
  intros Hm Hraises w. unfold mbind, M_bind.
  specialize (Hm w). destruct (Hraises w) as [e He].
  destruct (m w) as [[a|e'] w1]; simpl in *; done.
Qed.

Lemma create_pdf_always_raises_any env svc self transaction_number :
  always_raises (create_pdf env svc self transaction_number).
Proof.
  intros w. destruct (create_pdf_raises env svc self transaction_number w)
    as (e & w' & -> & _). eauto.
Qed.

Lemma create_pdf_only_adds_blanks env svc self transaction_number :
  stays_within only_adds_blanks (create_pdf env svc self transaction_number).
Proof.
  intros w. rewrite create_pdf_run. cbn zeta.
  pose proof (only_adds_blanks_mkdir true
    (ROOT_DIR env / transaction_number / "service_edited") w) as Hmk.
  unfold os_call in Hmk. destruct (mkdir _ _ _) as [e|fs']; simpl in *.
  - intros p. by left.
  - intros p. apply Hmk.
Qed.

Lemma set_transaction_processing_only_adds_blanks env transaction_number :
  stays_within only_adds_blanks (set_transaction_processing env transaction_number).
Proof.
  unfold set_transaction_processing.
  apply stays_bind; [apply _|apply only_adds_blanks_emit|intros _].
  apply stays_try_except; [apply _|apply only_adds_blanks_touch|].
  intros e. repeat case_match; apply stays_raise; apply _.
Qed.

Lemma handle_transaction_only_adds_blanks env svc self transaction :
  stays_within only_adds_blanks (handle_transaction env svc self transaction).
Proof.
  unfold handle_transaction.
  apply stays_try_except; [apply _| |].
  - apply stays_bind; [apply _| |intros tn].
    { case_match; [apply stays_ret|apply stays_raise]; apply _. }
    apply stays_bind; [apply _| |intros _].
    { apply set_transaction_processing_only_adds_blanks. }
    apply stays_bind_raises.
    + apply create_pdf_only_adds_blanks.
    + apply create_pdf_always_raises_any.
  - intros e. destruct e; apply only_adds_blanks_emit.
Qed.

(** X9: A pass over a batch only adds empty files and directories to the file
    system: whatever was there before (source images, markers, documents) is
    there afterwards, unchanged, and no document is written anywhere. *)
Theorem run_only_adds_blanks env svc self w p :
  let w' := (handle_new_transactions env svc self w).2 in
  fs w' !! p = fs w !! p ∨
  (fs w !! p = None ∧ (fs w' !! p = Some (File Blank) ∨ fs w' !! p = Some Dir)).
Proof.
  revert w p. change (stays_within only_adds_blanks
                        (handle_new_transactions env svc self)).
  unfold handle_new_transactions.
  apply stays_bind; [apply _| |intros batch].
  - intros w. rewrite get_transactions_in_status_run. by left.
  - apply stays_for_each; [apply _|]. intros transaction.
    apply handle_transaction_only_adds_blanks.
Qed.

(** The sample pass: two markers and two directories are new, the source
    images of [T100] are as they were. *)
Example run_only_adds_blanks_sample :
  let w' := (handle_new_transactions sample_env sample_svc sample_self sample_world).2 in
  filter (λ p, fs w' !! p ≠ sample_fs !! p)
         (merge_sort PathLib.le (map fst (map_to_list (fs w'))))
  = [["srv"; "processing"; "T100"]; ["srv"; "processing"; "T200"];
     ["srv"; "processing"; "T300"];
     ["srv"; "scans"; "T100"; "service_edited"];
     ["srv"; "scans"; "T300"; "service_edited"]].
Proof. vm_compute. reflexivity. Qed.

(** ** The page loop *)

Lemma create_pdf_pages_app env svc self writer files1 files2 w :
  create_pdf_pages env svc self writer (files1 ++ files2) w
  = (create_pdf_pages env svc self writer files1
     ≫= λ writer', create_pdf_pages env svc self writer' files2) w.
Proof.
  revert writer w. induction files1 as [|page files1 IH]; intros writer w.
  { done. }
  cbn [create_pdf_pages app]. unfold mbind, M_bind in *.
  destruct (extract_text svc self page w) as [[text|e] w1]; [|done].
  destruct (upload_page_text env svc self text (name page) w1) as [[[]|e] w2];
    [|done].
  by rewrite IH.
Qed.

Lemma create_pdf_pages_done env svc self writer files w (text : Path → Text) :
  (∀ w' page, page ∈ files →
     textract_detect_document_text svc w' page = Returns (text page)) →
  (∀ w' page, page ∈ files →
     s3_upload_file svc w' (text page) (OCR_BUCKET env) (name page) = Returns tt) →
  ∃ writer',
    create_pdf_pages env svc self writer files w
    = (Returns writer',
       {| fs := fs w; calls := calls w ++ flat_map (page_calls env text) files |}).
Proof.
  intros Hocr Hs3. eexists.
  by rewrite (create_pdf_pages_pairs env svc self writer files w text).
Qed.

(** X10: With Textract reading every page and S3 taking every upload, the loop of
    lines 71-74 returns after asking, for each source file in the order of
    the list, for the text of the page and then for the upload of that text
    to the bucket [OCR_BUCKET] under the file name of the page; the file
    system is not touched. *)
Theorem page_loop_requests_in_order env svc self writer files w
    (text : Path → Text) :
  (∀ w' page, page ∈ files →
     textract_detect_document_text svc w' page = Returns (text page)) →
  (∀ w' page, page ∈ files →
     s3_upload_file svc w' (text page) (OCR_BUCKET env) (name page) = Returns tt) →
  ∃ writer',
    create_pdf_pages env svc self writer files w
    = (Returns writer',
       {| fs := fs w; calls := calls w ++ flat_map (page_calls env text) files |}).
Proof. apply create_pdf_pages_done. Qed.

Lemma page_loop_requests_in_order_witness :
  ∃ writer',
    create_pdf_pages sample_env sample_svc sample_self
      (PDFWriter_new ["out"; "T.pdf"])
      [["in"; "0001.tiff"]; ["in"; "0002.tiff"]] sample_world
    = (Returns writer',
       {| fs := sample_fs;
          calls := [Textract_detect_document_text ["in"; "0001.tiff"];
                    S3_upload_file "text of 0001.tiff" "ocr-text" "0001.tiff";
                    Textract_detect_document_text ["in"; "0002.tiff"];
                    S3_upload_file "text of 0002.tiff" "ocr-text" "0002.tiff"] |}).
Proof.
  apply (page_loop_requests_in_order sample_env sample_svc sample_self
           (PDFWriter_new ["out"; "T.pdf"])
           [["in"; "0001.tiff"]; ["in"; "0002.tiff"]] sample_world
           (λ p, "text of " +:+ name p)).
  - intros w' p Hp.
    repeat (apply elem_of_cons in Hp as [->|Hp]; [reflexivity|]).
    by apply elem_of_nil in Hp.
  - reflexivity.
Defined.

(** X11: Text extraction failing on a page stops the loop there: the exception
    leaves it, every earlier page has been extracted and published, in order,
    the failing page has been asked for and not published, and no later page
    is touched. Nothing is taken back. *)
Theorem extraction_failure_stops_loop env svc self writer
    (before : list Path) (page : Path) (rest : list Path) w
    (text : Path → Text) (e : exn) :
  (∀ w' p, p ∈ before →
     textract_detect_document_text svc w' p = Returns (text p)) →
  (∀ w' p, p ∈ before →
     s3_upload_file svc w' (text p) (OCR_BUCKET env) (name p) = Returns tt) →
  (∀ w', textract_detect_document_text svc w' page = Raises e) →
  create_pdf_pages env svc self writer (before ++ page :: rest) w
  = (Raises e,
     {| fs := fs w;
        calls := calls w ++ flat_map (page_calls env text) before
                 ++ [Textract_detect_document_text page] |}).
Proof.
  intros Hocr Hs3 Hfail. rewrite create_pdf_pages_app. unfold mbind, M_bind.
  destruct (create_pdf_pages_done env svc self writer before w text Hocr Hs3)
    as [writer' ->].
  cbn [create_pdf_pages]. unfold mbind, M_bind, extract_text, external.
  rewrite Hfail. cbn [fs calls]. by rewrite <- (assoc_L (++)).
Qed.

Lemma extraction_failure_stops_loop_witness :
  create_pdf_pages sample_env sample_svc sample_self
    (PDFWriter_new ["out"; "T.pdf"]) sample_pages sample_world
  = (Raises (ServiceError "Textract"),
     {| fs := sample_fs;
        calls := [Textract_detect_document_text ["in"; "0001.tiff"];
                  S3_upload_file "text of 0001.tiff" "ocr-text" "0001.tiff";
                  Textract_detect_document_text ["in"; "0002.tiff"];
                  S3_upload_file "text of 0002.tiff" "ocr-text" "0002.tiff";
                  Textract_detect_document_text ["in"; "0003.tiff"]] |}).
Proof.
  apply (extraction_failure_stops_loop sample_env sample_svc sample_self
           (PDFWriter_new ["out"; "T.pdf"])
           [["in"; "0001.tiff"]; ["in"; "0002.tiff"]] ["in"; "0003.tiff"]
           [["in"; "0004.tiff"]] sample_world
           (λ p, "text of " +:+ name p) (ServiceError "Textract")).
  - intros w' p Hp.
    repeat (apply elem_of_cons in Hp as [->|Hp]; [reflexivity|]).
    by apply elem_of_nil in Hp.
  - reflexivity.
  - reflexivity.
Defined.

(** X12: An upload failing for a page stops the loop there as well: the page has
    been extracted and its upload asked for, the exception leaves the loop,
    and no later page is touched. *)
Theorem upload_failure_stops_loop env svc self writer
    (before : list Path) (page : Path) (rest : list Path) w
    (text : Path → Text) (e : exn) :
  (∀ w' p, p ∈ before →
     textract_detect_document_text svc w' p = Returns (text p)) →
  (∀ w' p, p ∈ before →
     s3_upload_file svc w' (text p) (OCR_BUCKET env) (name p) = Returns tt) →
  (∀ w', textract_detect_document_text svc w' page = Returns (text page)) →
  (∀ w', s3_upload_file svc w' (text page) (OCR_BUCKET env) (name page)
         = Raises e) →
  create_pdf_pages env svc self writer (before ++ page :: rest) w
  = (Raises e,
     {| fs := fs w;
        calls := calls w ++ flat_map (page_calls env text) before
                 ++ page_calls env text page |}).
Proof.
  intros Hocr Hs3 Hpage Hfail. rewrite create_pdf_pages_app. unfold mbind, M_bind.
  destruct (create_pdf_pages_done env svc self writer before w text Hocr Hs3)
    as [writer' ->].
  cbn [create_pdf_pages].
  unfold mbind, M_bind, extract_text, upload_page_text, external.
  rewrite Hpage. cbn [fs calls]. rewrite Hfail.
  unfold page_calls. by rewrite <- !(assoc_L (++)).
Qed.

Lemma upload_failure_stops_loop_witness :
  create_pdf_pages sample_env sample_svc_no_upload sample_self
    (PDFWriter_new ["out"; "T.pdf"]) sample_pages sample_world
  = (Raises (ServiceError "S3"),
     {| fs := sample_fs;
        calls := [Textract_detect_document_text ["in"; "0001.tiff"];
                  S3_upload_file "text of 0001.tiff" "ocr-text" "0001.tiff"] |}).
Proof.
  apply (upload_failure_stops_loop sample_env sample_svc_no_upload sample_self
           (PDFWriter_new ["out"; "T.pdf"])
           [] ["in"; "0001.tiff"]
           [["in"; "0002.tiff"]; ["in"; "0003.tiff"]; ["in"; "0004.tiff"]]
           sample_world (λ p, "text of " +:+ name p) (ServiceError "S3")).
  - intros w' p Hp. by apply elem_of_nil in Hp.
  - intros w' p Hp. by apply elem_of_nil in Hp.
  - reflexivity.
  - reflexivity.
Defined.

(** ** More on page collection *)

#[local] Instance by_filename_antisymm : AntiSymm (=) by_filename.
Proof.
  intros p q. unfold by_filename, Str.ltb.
  rewrite (str_compare_antisym (name p) (name q)).
  by destruct (Str.compare (name q) (name p)).
Qed.

(** A directory has one page sequence. *)
Lemma pages_of_unique fs d files1 files2 :
  pages_of fs d files1 → pages_of fs d files2 → files1 = files2.
Proof.
  intros [Hin1 Hs1] [Hin2 Hs2].
  assert (∀ p, ¬ by_filename p p) as Hirr.
  { intros p. unfold by_filename, Str.ltb, Str.compare.
    by rewrite (lex_compare_refl Ascii.compare Ascii.compare_antisym). }
  assert (∀ l, StronglySorted by_filename l → NoDup l) as Hnd.
  { induction 1 as [|p l _ IH Hp]; constructor; [|done].
    intros Hpl. rewrite Forall_forall in Hp. by apply (Hirr p), Hp. }
  apply (StronglySorted_unique by_filename); [done..|].
  apply NoDup_Permutation; auto. intros p. by rewrite Hin1, Hin2.
Qed.

Lemma tiff_entry_insert fs d q x p :
  ¬ ends_with ".tiff" (name q) → q ≠ d →
  tiff_entry (<[q := x]> fs) d p ↔ tiff_entry fs d p.
Proof.
  intros Hq Hd. unfold tiff_entry, is_dir.
  rewrite (lookup_insert_ne fs q d) by done.
  split; intros (Hdir & Hp & n & -> & Hn); (split; [done|]);
    (split; [|by eauto]).
  - rewrite lookup_insert_ne in Hp; [done|].
    intros ->. by rewrite name_div in Hq.
  - rewrite lookup_insert_ne; [done|].
    intros ->. by rewrite name_div in Hq.
Qed.

Lemma pages_of_insert fs d q x files :
  ¬ ends_with ".tiff" (name q) → q ≠ d →
  pages_of fs d files → pages_of (<[q := x]> fs) d files.
Proof.
  intros Hq Hd [Hin Hs]. split; [|done].
  intros p. by rewrite Hin, tiff_entry_insert.
Qed.

(** X13: Entries whose names do not end in [.tiff] do not count: putting one
    anywhere but at the place of the two directories themselves leaves the
    result of [collect_tiff_filepaths] as it is. *)
Theorem collect_tiff_filepaths_ignores_other_files (fs : FS) (root_dir q : Path)
    (x : node) :
  ¬ ends_with ".tiff" (name q) →
  q ≠ root_dir / "master_edited" → q ≠ root_dir / "master" →
  collect_tiff_filepaths (<[q := x]> fs) root_dir
  = collect_tiff_filepaths fs root_dir.
Proof.
  intros Hq Hedited Hmaster. unfold collect_tiff_filepaths, is_dir.
  rewrite (lookup_insert_ne fs q (root_dir / "master_edited")) by done.
  destruct (fs !! (root_dir / "master_edited")) as [[|c]|];
    (eapply pages_of_unique; [apply sorted_glob_pages|]);
    by apply pages_of_insert, sorted_glob_pages.
Qed.

Lemma collect_tiff_filepaths_ignores_other_files_witness :
  collect_tiff_filepaths
    (<[ROOT_DIR sample_env / "T100" / "master" / "0003.TIF" := File Blank]> sample_fs)
    (ROOT_DIR sample_env / "T100")
  = collect_tiff_filepaths sample_fs (ROOT_DIR sample_env / "T100").
Proof.
  apply collect_tiff_filepaths_ignores_other_files.
  - intros [stem Hstem]. vm_compute in Hstem.
    repeat (destruct stem as [|? stem]; [discriminate Hstem|];
            injection Hstem as _ Hstem).
    destruct stem; discriminate Hstem.
  - discriminate.
  - discriminate.
Defined.

(** ** Markers after a pass *)






(** ** A record, step by step *)

Lemma failure_at_guard env svc self transaction tn e w w1 :
  lowercased transaction !! "transactionnumber" = Some tn →
  set_transaction_processing env tn w = (Raises e, w1) →
  e ≠ AlreadyProcessingError →
  handle_transaction env svc self transaction w
  = (Returns tt, {| fs := fs w1; calls := calls w1 ++ [Logging_error (LogExn e)] |}).
Proof.
  intros Htn Hguard He.
  unfold handle_transaction, try_except, mbind, M_bind.
  rewrite Htn. cbn [mret M_ret]. rewrite Hguard. by destruct e.
Qed.

Lemma missing_key env svc self transaction w :
  lowercased transaction !! "transactionnumber" = None →
  handle_transaction env svc self transaction w
  = (Returns tt,
     {| fs := fs w;
        calls := calls w ++ [Logging_error (LogExn (KeyError "transactionnumber"))] |}).
Proof.
  intros Hnone. unfold handle_transaction, try_except, mbind, M_bind.
  by rewrite Hnone.
Qed.

(** The guard, as [os_call] of [touch]. *)
Lemma set_transaction_processing_touch env tn w :
  set_transaction_processing env tn w =
  match touch true (fs w) (marker env tn) with
  | inr fs1 =>
      (Returns tt,
       {| fs := fs1; calls := calls w ++ [Call_set_transaction_processing tn] |})
  | inl e =>
      (Raises (OSError e),
       {| fs := fs w; calls := calls w ++ [Call_set_transaction_processing tn] |})
  end.
Proof.
  rewrite set_transaction_processing_run. cbn zeta. unfold touch.
  destruct (fs w !! marker env tn); [done|].
  by destruct (create_file _ _).
Qed.

(** What one record does to the file system: the marker is touched; if that
    went through, the output directory is made; nothing else. *)
Lemma run_record_fs env svc self transaction w :
  fs (run_record env svc self transaction w) =
  match lowercased transaction !! "transactionnumber" with
  | None => fs w
  | Some tn =>
      match touch true (fs w) (marker env tn) with
      | inl _ => fs w
      | inr fs1 =>
          match mkdir true fs1 (ROOT_DIR env / tn / "service_edited") with
          | inl _ => fs1
          | inr fs2 => fs2
          end
      end
  end.
Proof.
  unfold run_record.
  destruct (lowercased transaction !! "transactionnumber") as [tn|] eqn:Htn;
    [|by rewrite missing_key].
  pose proof (set_transaction_processing_touch env tn w) as Hguard.
  destruct (touch true (fs w) (marker env tn)) as [e|fs1].
  { by rewrite (failure_at_guard _ _ _ _ _ _ _ _ Htn Hguard). }
  pose proof (create_pdf_run env svc self tn
    {| fs := fs1; calls := calls w ++ [Call_set_transaction_processing tn] |})
    as Hpdf.
  cbn zeta in Hpdf. cbn [fs calls] in Hpdf.
  destruct (mkdir true fs1 _) as [e|fs2];
    by rewrite (failure_after_guard _ _ _ _ _ _ _ _ _ Htn Hguard Hpdf).
Qed.

Lemma touch_done fs p fs1 :
  touch true fs p = inr fs1 → is_Some (fs1 !! p) ∧ touch true fs1 p = inr fs1.
Proof.
  unfold touch, create_file. destruct (fs !! p) as [x|] eqn:Hp.
  - intros [= <-]. by rewrite Hp.
  - destruct (fs !! parent p) as [[|c]|]; intros [= <-].
    by rewrite lookup_insert_eq.
Qed.

Lemma mkdir_done fs p fs2 :
  mkdir true fs p = inr fs2 → fs2 !! p = Some Dir ∧ mkdir true fs2 p = inr fs2.
Proof.
  unfold mkdir. destruct (fs !! p) as [[|c]|] eqn:Hp.
  - intros [= <-]. by rewrite Hp.
  - done.
  - destruct (fs !! parent p) as [[|c]|]; intros [= <-].
    by rewrite lookup_insert_eq.
Qed.

Lemma mkdir_keeps fs p fs2 q :
  mkdir true fs p = inr fs2 → is_Some (fs !! q) → fs2 !! q = fs !! q.
Proof.
  unfold mkdir. destruct (fs !! p) as [[|c]|] eqn:Hp.
  - by intros [= <-].
  - done.
  - destruct (fs !! parent p) as [[|c]|]; intros [= <-] [x Hq].
    rewrite lookup_insert_ne; [done|]. congruence.
Qed.

(** X15: Taking up a record a second time, right after the first, leaves the
    file system as the first time left it: the marker that is there does not
    stop [set_transaction_processing], and [touch] and [mkdir] find their
    work done. *)
Theorem second_processing_changes_nothing env svc self transaction w :
  let w1 := run_record env svc self transaction w in
  fs (run_record env svc self transaction w1) = fs w1.
Proof.
  intros w1. subst w1. rewrite !run_record_fs.
  destruct (lowercased transaction !! "transactionnumber") as [tn|]; [|done].
  destruct (touch true (fs w) (marker env tn)) as [e|fs1] eqn:Htouch.
  { by rewrite Htouch. }
  destruct (touch_done _ _ _ Htouch) as [Hm Htouch1].
  destruct (mkdir true fs1 _) as [e|fs2] eqn:Hmkdir.
  { by rewrite Htouch1, Hmkdir. }
  destruct (mkdir_done _ _ _ Hmkdir) as [_ Hmkdir2].
  assert (touch true fs2 (marker env tn) = inr fs2) as ->.
  { unfold touch. destruct Hm as [x Hx].
    by rewrite (mkdir_keeps _ _ _ (marker env tn) Hmkdir), Hx. }
  by rewrite Hmkdir2.
Qed.

(** ** What a pass gets to *)

Lemma handle_transaction_reaches env svc self transaction :
  stays_within (adds_calls reached_by_a_pass)
               (handle_transaction env svc self transaction).
Proof.
  intros w.
  destruct (lowercased transaction !! "transactionnumber") as [tn|] eqn:Htn.
  2:{ rewrite (missing_key _ _ _ _ _ Htn). eexists. split; [done|].
      by repeat constructor. }
  pose proof (set_transaction_processing_touch env tn w) as Hguard.
  destruct (touch true (fs w) (marker env tn)) as [e|fs1].
  { rewrite (failure_at_guard _ _ _ _ _ _ _ _ Htn Hguard); [|done].
    cbn [snd calls]. rewrite <- (assoc_L (++)). eexists. split; [done|].
    by repeat constructor. }
  pose proof (create_pdf_run env svc self tn
    {| fs := fs1; calls := calls w ++ [Call_set_transaction_processing tn] |})
    as Hpdf.
  cbn zeta in Hpdf. cbn [fs calls] in Hpdf.
  destruct (mkdir true fs1 _) as [e|fs2];
    rewrite (failure_after_guard _ _ _ _ _ _ _ _ _ Htn Hguard Hpdf) by done;
    cbn [snd calls]; rewrite <- !(assoc_L (++)); eexists; (split; [done|]);
    by repeat constructor.
Qed.

(** X16: In no world and for no batch does a pass get further than the fetch,
    the acquisition of guards and the entry of [create_pdf]: the log of its
    calls holds no text extraction, no upload, no [optimize_pdf], no
    [update_transaction_status], no [set_transaction_finished] and no
    [already processing] message; every log record is an exception. *)
Theorem pass_reaches_no_service env svc self w :
  Forall reached_by_a_pass
         (new_calls w (handle_new_transactions env svc self w).2).
Proof.
  assert (stays_within (adds_calls reached_by_a_pass)
            (handle_new_transactions env svc self)) as Hstays.
  { unfold handle_new_transactions.
    apply stays_bind; [apply _| |intros batch].
    - intros w0. rewrite get_transactions_in_status_run. eexists.
      split; [done|]. by repeat constructor.
    - apply stays_for_each; [apply _|]. intros transaction.
      apply handle_transaction_reaches. }
  destruct (Hstays w) as (evs & Hcalls & Hevs).
  unfold new_calls. by rewrite Hcalls, drop_app_length.
Qed.
